(** * ezgatr: PGA encode/decode utilities and the multivector-only GATr blocks

    A shallow embedding of [ezgatr/utils/encode.py] and
    [ezgatr/nets/mv_only_gatr.py].

    Tensors are contiguous row-major arrays: a dtype, a shape and a flat
    list of entries.  A dtype is floating or (signed) integral; storing a
    floating value into an integral tensor truncates it toward zero.
    Entries are exact rationals ([Q]): rounding, infinities and NaN of the
    floating dtypes, overflow of the integral ones, and the unsigned,
    boolean and complex dtypes are not part of the model.  Python
    exceptions are values of an error monad. *)

From Stdlib Require Import List ZArith QArith Qabs Qround Lia Bool String.
From Stdlib Require Import Arith PeanoNat.
From Stdlib Require Import Qfield Lqa.
Import ListNotations.

Close Scope Q_scope.
Open Scope nat_scope.

(* ================================================================== *)
(** ** Python results *)

Inductive exn : Type :=
| ValueError (msg : string)
| IndexError
| RuntimeError
| NotImplementedError.

Inductive result (A : Type) : Type :=
| Ok (a : A)
| Raise (e : exn).

Arguments Ok {A} a.
Arguments Raise {A} e.

Definition bind {A B : Type} (c : result A) (k : A -> result B) : result B :=
  match c with
  | Ok a => k a
  | Raise e => Raise e
  end.

Notation "x <- c ;; k" := (bind c (fun x => k))
  (at level 61, c at next level, right associativity).

Notation "' pat <- c ;; k" :=
  (bind c (fun x => match x with pat => k end))
  (at level 61, pat pattern, c at next level, right associativity).

(* ================================================================== *)
(** ** The tensor substrate *)

Module Torch.

(** The two kinds of dtype: floating ([torch.float32], ...) and integral
    ([torch.int64], ...). *)
Inductive scalar_type : Type := Floating | Integral.

Record tensor : Type :=
  Tensor { dtype : scalar_type; shape : list nat; data : list Q }.

(** Conversion of a floating value to an integral dtype truncates toward
    zero. *)
Definition trunc (q : Q) : Q :=
  inject_Z (if Qle_bool 0 q then Qfloor q else Qceiling q).

(** A value of dtype [src] stored into a tensor of dtype [dst]. *)
Definition convert (src dst : scalar_type) (v : Q) : Q :=
  match src, dst with
  | Floating, Integral => trunc v
  | _, _ => v
  end.

(** The dtype of the result of an operation on two tensors. *)
Definition promote (a b : scalar_type) : scalar_type :=
  match a, b with
  | Integral, Integral => Integral
  | _, _ => Floating
  end.

(** Number of entries of a shape; the empty shape is a 0-dim tensor. *)
Definition numel (s : list nat) : nat := fold_right Nat.mul 1 s.

Definition wf (t : tensor) : Prop := List.length (data t) = numel (shape t).

(** [t.dim()] *)
Definition dim (t : tensor) : nat := List.length (shape t).

(** Entry at a flat row-major position. *)
Definition item (t : tensor) (p : nat) : Q := nth p (data t) 0%Q.

Definition tabulate (d : scalar_type) (s : list nat) (f : nat -> Q) : tensor :=
  Tensor d s (map f (seq 0 (numel s))).

(** Equality of tensors as Python's [==] on numbers sees it: the dtypes
    play no part. *)
Definition teq (a b : tensor) : Prop :=
  shape a = shape b /\ Forall2 Qeq (data a) (data b).

(** Split a shape into its leading axes and its last axis. *)
Definition last_axis (s : list nat) : option (list nat * nat) :=
  match rev s with
  | [] => None
  | n :: r => Some (rev r, n)
  end.

(** [torch.zeros] of a shape, with [dtype=d] *)
Definition zeros (d : scalar_type) (s : list nat) : tensor :=
  tabulate d s (fun _ => 0%Q).

(** [-t], of the dtype of [t], and [c * t] for a Python float [c], which
    is floating whatever the dtype of [t]. *)
Definition neg (t : tensor) : tensor :=
  tabulate (dtype t) (shape t) (fun p => Qopp (item t p)).

Definition scale (c : Q) (t : tensor) : tensor :=
  tabulate Floating (shape t) (fun p => Qmult c (item t p)).

(** [t[..., k]] *)
Definition select_last (t : tensor) (k : nat) : result tensor :=
  match last_axis (shape t) with
  | None => Raise IndexError
  | Some (lead, n) =>
      if k <? n
      then Ok (tabulate (dtype t) lead (fun r => item t (r * n + k)))
      else Raise IndexError
  end.

(** [t[..., :]]: a slice cannot be applied to a 0-dim tensor. *)
Definition slice_all (t : tensor) : result tensor :=
  match last_axis (shape t) with
  | None => Raise IndexError
  | Some _ => Ok t
  end.

(** [t[..., a:b]]: slice bounds are clamped to the axis. *)
Definition slice_last (t : tensor) (a b : nat) : result tensor :=
  match last_axis (shape t) with
  | None => Raise IndexError
  | Some (lead, n) =>
      let a' := Nat.min a n in
      let w := Nat.min b n - a' in
      Ok (tabulate (dtype t) (lead ++ [w])
            (fun p => item t ((p / w) * n + (a' + p mod w))))
  end.

(** [t[..., [k]]]: indexing with a one-element list keeps the axis.  An
    indexed axis of size 0 is refused at once (no index is valid for it).
    Otherwise the index is checked when an entry is gathered: on a tensor
    without entries along the leading axes nothing is gathered and the
    result is empty, whatever [k]. *)
Definition index_last (t : tensor) (k : nat) : result tensor :=
  match last_axis (shape t) with
  | None => Raise IndexError
  | Some (lead, n) =>
      if n =? 0 then Raise IndexError
      else if (k <? n) || (numel lead =? 0)
      then Ok (tabulate (dtype t) (lead ++ [1]) (fun r => item t (r * n + k)))
      else Raise IndexError
  end.

(** *** Broadcasting

    Shapes are aligned from the last axis, so the helpers work on
    reversed shapes.  [src_pos rt rs p] is the flat position in a source
    of (reversed) shape [rs] that the flat position [p] of a target of
    (reversed) shape [rt] reads. *)

Fixpoint expandable (rt rs : list nat) : bool :=
  match rs, rt with
  | [], _ => true
  | _ :: _, [] => false
  | ds :: rs', dt :: rt' => ((ds =? dt) || (ds =? 1)) && expandable rt' rs'
  end.

Fixpoint src_pos (rt rs : list nat) (p : nat) : nat :=
  match rt, rs with
  | dt :: rt', ds :: rs' =>
      (if ds =? 1 then 0 else p mod dt) + ds * src_pos rt' rs' (p / dt)
  | _, _ => 0
  end.

Fixpoint broadcast_rev (r1 r2 : list nat) : option (list nat) :=
  match r1, r2 with
  | [], r => Some r
  | r, [] => Some r
  | a :: r1', b :: r2' =>
      match broadcast_rev r1' r2' with
      | None => None
      | Some r =>
          if a =? b then Some (a :: r)
          else if a =? 1 then Some (b :: r)
          else if b =? 1 then Some (a :: r)
          else None
      end
  end.

Definition broadcast_shapes (s1 s2 : list nat) : option (list nat) :=
  option_map (@rev nat) (broadcast_rev (rev s1) (rev s2)).

(** [a op b] for tensors, entry by entry after broadcasting, with a
    result of dtype [d]. *)
Definition binop (d : scalar_type) (f : Q -> Q -> Q) (a b : tensor)
  : result tensor :=
  match broadcast_shapes (shape a) (shape b) with
  | None => Raise RuntimeError
  | Some s =>
      Ok (tabulate d s (fun p =>
            f (item a (src_pos (rev s) (rev (shape a)) p))
              (item b (src_pos (rev s) (rev (shape b)) p))))
  end.

(** [a + b], of the promoted dtype, and [a / b], which is floating.  A
    division by zero, which the substrate answers with an infinity or NaN,
    is 0 here as in [Q]. *)
Definition add (a b : tensor) : result tensor :=
  binop (promote (dtype a) (dtype b)) Qplus a b.
Definition div (a b : tensor) : result tensor := binop Floating Qdiv a b.

(** [torch.where(torch.abs(e) > threshold, e, threshold)] with a Python
    float [threshold]: the mask and both branches have the shape of [e],
    the result is floating. *)
Definition abs_gt (threshold v : Q) : bool := negb (Qle_bool (Qabs v) threshold).

Definition where_abs_gt (e : tensor) (threshold : Q) : tensor :=
  tabulate Floating (shape e)
    (fun p => if abs_gt threshold (item e p) then item e p else threshold).

(** *** Index assignment

    The value of [dst[...] = v] is copied as the substrate does it: the
    same shape is copied as it is; otherwise leading axes of size one are
    dropped from the value and it is expanded to the destination.  Every
    entry is converted to the dtype [d] of the destination. *)

Fixpoint strip1 (s : list nat) : list nat :=
  match s with
  | 1 :: s' => strip1 s'
  | _ => s
  end.

Definition shape_eqb (s1 s2 : list nat) : bool :=
  if list_eq_dec Nat.eq_dec s1 s2 then true else false.

Definition copy_to (d : scalar_type) (dst : list nat) (v : tensor)
  : result (nat -> Q) :=
  if shape_eqb dst (shape v)
  then Ok (fun p => convert (dtype v) d (item v p))
  else
    let rs := rev (strip1 (shape v)) in
    if expandable (rev dst) rs
    then Ok (fun p => convert (dtype v) d (item v (src_pos (rev dst) rs p)))
    else Raise RuntimeError.

(** [t[..., k] = c] for a Python float [c]. *)
Definition set_last_scalar (t : tensor) (k : nat) (c : Q) : result tensor :=
  match last_axis (shape t) with
  | None => Raise IndexError
  | Some (_, n) =>
      if k <? n
      then Ok (tabulate (dtype t) (shape t)
                 (fun p => if p mod n =? k
                           then convert Floating (dtype t) c
                           else item t p))
      else Raise IndexError
  end.

(** [t[..., k] = v] for a tensor [v]. *)
Definition set_last (t : tensor) (k : nat) (v : tensor) : result tensor :=
  match last_axis (shape t) with
  | None => Raise IndexError
  | Some (lead, n) =>
      if k <? n
      then
        g <- copy_to (dtype t) lead v ;;
        Ok (tabulate (dtype t) (shape t)
              (fun p => if p mod n =? k then g (p / n) else item t p))
      else Raise IndexError
  end.

(** [t[..., a:b] = v] for a tensor [v]. *)
Definition set_last_slice (t : tensor) (a b : nat) (v : tensor)
  : result tensor :=
  match last_axis (shape t) with
  | None => Raise IndexError
  | Some (lead, n) =>
      let a' := Nat.min a n in
      let b' := Nat.min b n in
      let w := b' - a' in
      g <- copy_to (dtype t) (lead ++ [w]) v ;;
      Ok (tabulate (dtype t) (shape t)
            (fun p =>
               let j := p mod n in
               if (a' <=? j) && (j <? b')
               then g ((p / n) * w + (j - a'))
               else item t p))
  end.

(** *** The channel axis

    The blocks of the network work on tensors of shape
    [(..., channels, 16)]; the channel axis is the second to last one. *)

Definition channel_axes (s : list nat) : option (list nat * nat * nat) :=
  match rev s with
  | n :: c :: r => Some (rev r, c, n)
  | _ => None
  end.

(** Number of channels, when there is a channel axis. *)
Definition channels (t : tensor) : option nat :=
  match channel_axes (shape t) with
  | Some (_, c, _) => Some c
  | None => None
  end.

(** The channels [start, start + len) of a tensor of shape
    [lead ++ [c; n]]. *)
Definition narrow2 (t : tensor) (lead : list nat) (c n start len : nat)
  : tensor :=
  tabulate (dtype t) (lead ++ [len; n])
    (fun p =>
       let j := p mod n in
       let q := p / n in
       item t (((q / len) * c + (start + q mod len)) * n + j)).

(** [torch.split(t, split_size, dim=-2)]: chunks of [split_size] channels,
    the last one smaller when the axis does not divide evenly. *)
Definition split2 (t : tensor) (split_size : Z) : result (list tensor) :=
  match channel_axes (shape t) with
  | None => Raise IndexError
  | Some (lead, c, n) =>
      if (split_size <? 0)%Z then Raise RuntimeError
      else
        let s := Z.to_nat split_size in
        if (s =? 0) && negb (c =? 0) then Raise RuntimeError
        else
          let num := if s =? 0 then 1 else Nat.max ((c + s - 1) / s) 1 in
          Ok (map (fun i =>
                     narrow2 t lead c n (i * s)
                       (if i + 1 <? num then s else c - s * (num - 1)))
                (seq 0 num))
  end.

(** [torch.cat([a, b], dim=-2)] *)
Definition cat2 (a b : tensor) : result tensor :=
  match channel_axes (shape a), channel_axes (shape b) with
  | Some (la, ca, na), Some (lb, cb, nb) =>
      if shape_eqb la lb && (na =? nb)
      then Ok (tabulate (promote (dtype a) (dtype b)) (la ++ [ca + cb; na])
                 (fun p =>
                    let j := p mod na in
                    let q := p / na in
                    let r := q / (ca + cb) in
                    let ch := q mod (ca + cb) in
                    if ch <? ca
                    then item a ((r * ca + ch) * na + j)
                    else item b ((r * cb + (ch - ca)) * na + j)))
      else Raise RuntimeError
  | _, _ => Raise IndexError
  end.

End Torch.

Import Torch.

(** What a Python call hands back: a tensor, or [None]. *)
Inductive pyvalue : Type :=
| PyNone
| PyTensor (t : tensor).

(** A call fails explicitly when it raises instead of returning. *)
Definition fails_explicitly {A : Type} (r : result A) : Prop :=
  exists e, r = Raise e.

(* ================================================================== *)
(** ** ezgatr/utils/encode.py *)

Module Translation.

(** [Translation.encode(delta)] *)
Definition encode (delta : tensor) : result tensor :=
  let mvs := zeros (dtype delta) (removelast (shape delta) ++ [16]) in
  mvs <- set_last_scalar mvs 0 1%Q ;;
  d <- slice_all delta ;;
  mvs <- set_last_slice mvs 5 8 (scale (- (1 # 2))%Q d) ;;
  Ok mvs.

(** [Translation.decode(mvs, divide_by_embedding_dim, threshold)] *)
Definition decode (mvs : tensor) (divide_by_embedding_dim : bool)
    (threshold : Q) : result tensor :=
  s <- slice_last mvs 5 8 ;;
  let delta := scale (- (2 # 1))%Q s in
  if divide_by_embedding_dim then
    embedding_dim <- index_last mvs 0 ;;
    let embedding_dim := where_abs_gt embedding_dim threshold in
    div delta embedding_dim
  else Ok delta.

Definition default_threshold : Q := (1 # 1000)%Q.

End Translation.

Module Point.

(** [Point.encode(points)] *)
Definition encode (points : tensor) : result tensor :=
  let mvs := zeros (dtype points) (removelast (shape points) ++ [16]) in
  mvs <- set_last_scalar mvs 14 1%Q ;;
  x <- select_last points 0 ;;
  mvs <- set_last mvs 13 (neg x) ;;
  y <- select_last points 1 ;;
  mvs <- set_last mvs 12 y ;;
  z <- select_last points 2 ;;
  mvs <- set_last mvs 11 (neg z) ;;
  Ok mvs.

(** [Point.decode(mvs)]: the body is [pass]. *)
Definition decode (mvs : tensor) : result pyvalue := Ok PyNone.

End Point.

Module Plane.

Section WithProduct.

(** [geometric_product] is imported from [ezgatr.primitives.bilinear]. *)
Variable geometric_product : tensor -> tensor -> result tensor.

(** [Plane.encode(normals, distance)] *)
Definition encode (normals distance : tensor) : result tensor :=
  let mvs := zeros (dtype normals) (removelast (shape normals) ++ [16]) in
  n <- slice_all normals ;;
  mvs <- set_last_slice mvs 2 5 n ;;
  if dim distance =? 1 then
    mvs <- set_last mvs 1 distance ;;
    Ok mvs
  else
    translation <- Translation.encode distance ;;
    inverse_translation <- Translation.encode (neg distance) ;;
    m <- geometric_product translation mvs ;;
    geometric_product m inverse_translation.

End WithProduct.

(** [Plane.decode(mvs)]: the body is [pass]. *)
Definition decode (mvs : tensor) : result pyvalue := Ok PyNone.

End Plane.

Module Reflection.

Definition encode (geometric_product : tensor -> tensor -> result tensor)
    (normals positions : tensor) : result tensor :=
  Plane.encode geometric_product normals positions.

Definition decode (mvs : tensor) : result pyvalue := Plane.decode mvs.

End Reflection.

Module Rotation.

(** [Rotation.encode(quaternions)] and [Rotation.decode(mvs)]: both bodies
    are [pass]. *)
Definition encode (quaternions : tensor) : result pyvalue := Ok PyNone.

Definition decode (mvs : tensor) : result pyvalue := Ok PyNone.

End Rotation.

(** [torch.cat([a, b], dim=-1)].  A 1-dimensional empty tensor is skipped;
    a 0-dimensional tensor cannot be concatenated; otherwise the leading
    axes must agree.  The result has the promoted dtype of the two. *)
Definition cat_last (a b : tensor) : result tensor :=
  let d := promote (dtype a) (dtype b) in
  if shape_eqb (shape a) [0] then Ok (tabulate d (shape b) (item b))
  else if shape_eqb (shape b) [0] then Ok (tabulate d (shape a) (item a))
  else
    match last_axis (shape a), last_axis (shape b) with
    | Some (la, na), Some (lb, nb) =>
        if shape_eqb la lb
        then Ok (tabulate d (la ++ [na + nb])
                   (fun p =>
                      let j := p mod (na + nb) in
                      let r := p / (na + nb) in
                      if j <? na
                      then item a (r * na + j)
                      else item b (r * nb + (j - na))))
        else Raise RuntimeError
    | _, _ => Raise RuntimeError
    end.

Module Scalar.

(** [Scalar.encode(scalars)] *)
Definition encode (scalars : tensor) : result tensor :=
  let pad := zeros (dtype scalars) (removelast (shape scalars) ++ [15]) in
  cat_last scalars pad.

(** [Scalar.decode(mvs)] *)
Definition decode (mvs : tensor) : result tensor := index_last mvs 0.

End Scalar.

Module Pseudoscalar.

(** [Pseudoscalar.encode(pseudoscalars)] *)
Definition encode (pseudoscalars : tensor) : result tensor :=
  let pad :=
    zeros (dtype pseudoscalars) (removelast (shape pseudoscalars) ++ [15]) in
  cat_last pad pseudoscalars.

(** [Pseudoscalar.decode(mvs)] *)
Definition decode (mvs : tensor) : result tensor := index_last mvs 15.

End Pseudoscalar.

(* ================================================================== *)
(** ** ezgatr/nets/mv_only_gatr.py *)

(** The equivariant primitives the blocks are built from live in
    [ezgatr.nn] and [ezgatr.nn.functional]; the blocks only call them.
    [EquiLinear] and [EquiRMSNorm] are classes: an instance is built from
    the channel counts and then called on a tensor. *)
Class Collaborators : Type := {
  EquiLinear : Type;
  EquiLinear_init : Z -> Z -> result EquiLinear;
  EquiLinear_call : EquiLinear -> tensor -> result tensor;
  EquiRMSNorm : Type;
  EquiRMSNorm_init : Z -> option Q -> bool -> result EquiRMSNorm;
  EquiRMSNorm_call : EquiRMSNorm -> tensor -> result tensor;
  geometric_product : tensor -> tensor -> result tensor;
  equi_join : tensor -> tensor -> option tensor -> result tensor;
  scaler_gated_gelu : tensor -> result tensor
}.

Record ModelConfig : Type := {
  size_context : Z;
  size_channels_in : Z;
  size_channels_out : Z;
  size_channels_hidden : Z;
  size_channels_intermediate : Z;
  norm_eps : option Q;
  norm_channelwise_rescale : bool
}.

(** The defaults of the dataclass. *)
Definition default_config : ModelConfig := {|
  size_context := 2048;
  size_channels_in := 1;
  size_channels_out := 1;
  size_channels_hidden := 32;
  size_channels_intermediate := 32;
  norm_eps := None;
  norm_channelwise_rescale := true
|}.

(** [lg, rg, lj, rj = ...]: unpacking raises unless there are four. *)
Definition unpack4 (l : list tensor)
  : result (tensor * tensor * tensor * tensor) :=
  match l with
  | [a; b; c; d] => Ok (a, b, c, d)
  | [] => Raise (ValueError "not enough values to unpack (expected 4, got 0)")
  | [_] => Raise (ValueError "not enough values to unpack (expected 4, got 1)")
  | [_; _] => Raise (ValueError "not enough values to unpack (expected 4, got 2)")
  | [_; _; _] => Raise (ValueError "not enough values to unpack (expected 4, got 3)")
  | _ => Raise (ValueError "too many values to unpack (expected 4)")
  end.

Module Embedding.
Section WithCollaborators.
Context {E : Collaborators}.

Record t : Type := { config : ModelConfig; embedding : EquiLinear }.

Definition __init__ (config : ModelConfig) : result t :=
  embedding <- EquiLinear_init (size_channels_in config)
                 (size_channels_hidden config) ;;
  Ok {| config := config; embedding := embedding |}.

Definition forward (self : t) (x : tensor) : result tensor :=
  EquiLinear_call (embedding self) x.

End WithCollaborators.
End Embedding.

Module Bilinear.
Section WithCollaborators.
Context {E : Collaborators}.

Record t : Type := {
  config : ModelConfig;
  proj_bil : EquiLinear;
  proj_out : EquiLinear
}.

Definition __init__ (config : ModelConfig) : result t :=
  if negb (size_channels_intermediate config mod 2 =? 0)%Z
  then Raise (ValueError "Number of hidden channels must be even.")
  else
    proj_bil <- EquiLinear_init (size_channels_hidden config)
                  (size_channels_intermediate config * 2) ;;
    proj_out <- EquiLinear_init (size_channels_intermediate config)
                  (size_channels_hidden config) ;;
    Ok {| config := config; proj_bil := proj_bil; proj_out := proj_out |}.

Definition forward (self : t) (x : tensor) (reference : option tensor)
  : result tensor :=
  let size_inter := (size_channels_intermediate (config self) / 2)%Z in
  y <- EquiLinear_call (proj_bil self) x ;;
  parts <- split2 y size_inter ;;
  '(lg, rg, lj, rj) <- unpack4 parts ;;
  g <- geometric_product lg rg ;;
  j <- equi_join lj rj reference ;;
  x <- cat2 g j ;;
  EquiLinear_call (proj_out self) x.

End WithCollaborators.
End Bilinear.

Module MLP.
Section WithCollaborators.
Context {E : Collaborators}.

Record t : Type := {
  config : ModelConfig;
  layer_norm : EquiRMSNorm;
  equi_bil : Bilinear.t;
  proj_out : EquiLinear
}.

Definition __init__ (config : ModelConfig) : result t :=
  layer_norm <- EquiRMSNorm_init (size_channels_hidden config)
                  (norm_eps config) (norm_channelwise_rescale config) ;;
  equi_bil <- Bilinear.__init__ config ;;
  proj_out <- EquiLinear_init (size_channels_hidden config)
                (size_channels_hidden config) ;;
  Ok {| config := config; layer_norm := layer_norm;
        equi_bil := equi_bil; proj_out := proj_out |}.

Definition forward (self : t) (x : tensor) (reference : option tensor)
  : result tensor :=
  let residual := x in
  x <- EquiRMSNorm_call (layer_norm self) x ;;
  x <- Bilinear.forward (equi_bil self) x reference ;;
  a <- scaler_gated_gelu x ;;
  x <- EquiLinear_call (proj_out self) a ;;
  add x residual.

End WithCollaborators.
End MLP.

Module Attention.

Record t : Type := { config : ModelConfig }.

Definition __init__ (config : ModelConfig) : result t :=
  Ok {| config := config |}.

(** [Attention.forward(x)]: [residual = x] and [x + residual]. *)
Definition forward (self : t) (x : tensor) : result tensor :=
  let residual := x in
  add x residual.

End Attention.

(* ================================================================== *)
(** ** The blocks as the specification words them *)

Module Described.
Section WithCollaborators.
Context {E : Collaborators}.

(** The [i]-th of the equal groups of [k] channels of [y]. *)
Definition channel_group (y : tensor) (k i : nat) : result tensor :=
  match channel_axes (shape y) with
  | None => Raise IndexError
  | Some (lead, c, n) =>
      if (i + 1) * k <=? c
      then Ok (narrow2 y lead c n (i * k) k)
      else Raise RuntimeError
  end.

(** [g] holds the channels [i * k, (i + 1) * k) of [y], whose shape is
    [lead ++ [c; 16]]. *)
Definition is_group (y : tensor) (lead : list nat) (c k i : nat)
    (g : tensor) : Prop :=
  shape g = lead ++ [k; 16]
  /\ forall r ch j, r < numel lead -> ch < k -> j < 16 ->
       item g ((r * k + ch) * 16 + j) =
         item y ((r * c + (i * k + ch)) * 16 + j).

(** Project, take the four operand groups in their fixed order, multiply
    the first pair, join the second pair, concatenate, project back. *)
Definition bilinear_forward (self : Bilinear.t) (x : tensor)
    (reference : option tensor) : result tensor :=
  let k := Z.to_nat (size_channels_intermediate (Bilinear.config self) / 2) in
  y <- EquiLinear_call (Bilinear.proj_bil self) x ;;
  left_gp <- channel_group y k 0 ;;
  right_gp <- channel_group y k 1 ;;
  left_join <- channel_group y k 2 ;;
  right_join <- channel_group y k 3 ;;
  gp <- geometric_product left_gp right_gp ;;
  jn <- equi_join left_join right_join reference ;;
  c <- cat2 gp jn ;;
  EquiLinear_call (Bilinear.proj_out self) c.

(** Normalize, then Bilinear, then gated activation, then linear. *)
Definition mlp_branch (self : MLP.t) (reference : option tensor)
    (x : tensor) : result tensor :=
  n <- EquiRMSNorm_call (MLP.layer_norm self) x ;;
  b <- Bilinear.forward (MLP.equi_bil self) n reference ;;
  a <- scaler_gated_gelu b ;;
  EquiLinear_call (MLP.proj_out self) a.

(** The branch applied to the input, plus the input itself. *)
Definition mlp_forward (self : MLP.t) (x : tensor)
    (reference : option tensor) : result tensor :=
  y <- mlp_branch self reference x ;;
  add y x.

End WithCollaborators.
End Described.

(** What the blocks rely on from the primitives: an equivariant linear map
    built for [i] input and [o] output channels turns [i] channels into
    [o] channels and leaves the other axes alone; the geometric product
    and the join of two operands of one shape have that shape. *)
Class Contracts (E : Collaborators) : Prop := {
  linear_init_ok : forall i o : Z,
    (0 < i)%Z -> (0 < o)%Z -> exists l, EquiLinear_init i o = Ok l;
  linear_call_ok : forall (i o : Z) l x lead,
    EquiLinear_init i o = Ok l ->
    shape x = lead ++ [Z.to_nat i; 16] ->
    exists y, EquiLinear_call l x = Ok y
              /\ shape y = lead ++ [Z.to_nat o; 16];
  linear_call_channels : forall (i o : Z) l x y,
    EquiLinear_init i o = Ok l ->
    EquiLinear_call l x = Ok y ->
    channels y = Some (Z.to_nat o);
  product_ok : forall a b lead c,
    shape a = lead ++ [c; 16] -> shape b = lead ++ [c; 16] ->
    exists y, geometric_product a b = Ok y /\ shape y = lead ++ [c; 16];
  join_ok : forall a b lead c,
    shape a = lead ++ [c; 16] -> shape b = lead ++ [c; 16] ->
    exists y, equi_join a b None = Ok y /\ shape y = lead ++ [c; 16]
}.

(** Stand-ins for the primitives, to run the blocks on concrete tensors:
    the linear map copies the first input channel to every output channel,
    product and join work entry by entry, normalization and activation
    return their input. *)
Module StandIn.

Definition linear_call (l : Z * Z) (x : tensor) : result tensor :=
  match channel_axes (shape x) with
  | None => Raise RuntimeError
  | Some (lead, c, n) =>
      if (c =? Z.to_nat (fst l)) && (n =? 16)
      then Ok (tabulate (dtype x) (lead ++ [Z.to_nat (snd l); 16])
                 (fun p =>
                    item x (((p / 16) / Z.to_nat (snd l)) * c * 16 + p mod 16)))
      else Raise RuntimeError
  end.

Definition entrywise (f : Q -> Q -> Q) (a b : tensor) : result tensor :=
  if shape_eqb (shape a) (shape b)
  then Ok (tabulate (promote (dtype a) (dtype b)) (shape a)
             (fun p => f (item a p) (item b p)))
  else Raise RuntimeError.

Definition collaborators : Collaborators := {|
  EquiLinear := Z * Z;
  EquiLinear_init := fun i o => Ok (i, o);
  EquiLinear_call := linear_call;
  EquiRMSNorm := unit;
  EquiRMSNorm_init := fun _ _ _ => Ok tt;
  EquiRMSNorm_call := fun _ x => Ok x;
  geometric_product := entrywise Qmult;
  equi_join := fun a b _ => entrywise Qminus a b;
  scaler_gated_gelu := fun x => Ok x
|}.

End StandIn.

(** The tensor [Translation.encode] builds from a [delta] of shape
    [lead ++ [3]], statement by statement. *)
Definition encoded_translation (delta : tensor) (lead : list nat) : tensor :=
  tabulate (dtype delta) (lead ++ [16])
    (fun p =>
       if (5 <=? p mod 16) && (p mod 16 <? 8)
       then convert Floating (dtype delta)
              (item (scale (- (1 # 2))%Q delta)
                 ((p / 16) * (8 - 5) + (p mod 16 - 5)))
       else item (tabulate (dtype delta) (lead ++ [16])
                    (fun q => if q mod 16 =? 0
                              then convert Floating (dtype delta) 1%Q
                              else item (zeros (dtype delta) (lead ++ [16])) q))
              p).

(** What [MLP] relies on besides: the normalization layer can be built
    for a positive channel count, and it and the gated activation return a
    tensor of the shape they are given. *)
Class BlockContracts (E : Collaborators) : Prop := {
  norm_init_ok : forall (c : Z) eps rescale,
    (0 < c)%Z -> exists n, EquiRMSNorm_init c eps rescale = Ok n;
  norm_call_ok : forall n x,
    exists y, EquiRMSNorm_call n x = Ok y /\ shape y = shape x;
  gelu_ok : forall x,
    exists y, scaler_gated_gelu x = Ok y /\ shape y = shape x
}.

(* ================================================================== *)
(** ** Sample inputs *)

(** Two translations (or points) in one batch. *)
Definition sample_delta : tensor :=
  Tensor Floating [2; 3] [1; 2; 3; - (7 # 2); 0; 1 # 3]%Q.

(** One multivector whose scalar component is small and negative. *)
Definition sample_mvs : tensor :=
  Tensor Floating [1; 16]
    [- (1 # 2000); 0; 0; 0; 0; 1; 2; 3; 0; 0; 0; 0; 0; 0; 0; 0]%Q.

(** Configurations, blocks over the stand-ins and a hidden tensor of shape
    [(1, 2, 16)]. *)
Definition small_config : ModelConfig := {|
  size_context := 4;
  size_channels_in := 1;
  size_channels_out := 1;
  size_channels_hidden := 2;
  size_channels_intermediate := 2;
  norm_eps := None;
  norm_channelwise_rescale := true
|}.

Definition odd_config : ModelConfig := {|
  size_context := 2048;
  size_channels_in := 1;
  size_channels_out := 1;
  size_channels_hidden := 32;
  size_channels_intermediate := 5;
  norm_eps := None;
  norm_channelwise_rescale := true
|}.

Definition sample_bilinear : @Bilinear.t StandIn.collaborators :=
  @Bilinear.Build_t StandIn.collaborators small_config (2, 4)%Z (2, 2)%Z.

Definition sample_mlp : @MLP.t StandIn.collaborators :=
  @MLP.Build_t StandIn.collaborators small_config tt sample_bilinear (2, 2)%Z.

Definition sample_hidden : tensor :=
  tabulate Floating [1; 2; 16] (fun p => inject_Z (Z.of_nat p)).

(** Three scalars in one batch. *)
Definition sample_scalars : tensor := Tensor Floating [3; 1] [4; - (1 # 2); 0]%Q.

(** A multivector that differs from [sample_mvs] in the components a
    translation does not use. *)
Definition sample_mvs_other : tensor :=
  Tensor Floating [1; 16]
    [- (1 # 2000); 9; 9; 9; 9; 1; 2; 3; 8; 8; 8; 7; 7; 7; 7; 6]%Q.

(** A 0-dimensional tensor. *)
Definition sample_0dim : tensor := Tensor Floating [] [2]%Q.

(** One point with a fourth, homogeneous coordinate. *)
Definition sample_homogeneous : tensor := Tensor Floating [1; 4] [1; 2; 3; 9]%Q.

(** A configuration with no intermediate channels, and the [Bilinear]
    built from it over the stand-ins. *)
Definition zero_config : ModelConfig := {|
  size_context := 4;
  size_channels_in := 1;
  size_channels_out := 1;
  size_channels_hidden := 2;
  size_channels_intermediate := 0;
  norm_eps := None;
  norm_channelwise_rescale := true
|}.

Definition sample_bilinear_zero : @Bilinear.t StandIn.collaborators :=
  @Bilinear.Build_t StandIn.collaborators zero_config (2, 0)%Z (0, 2)%Z.

(** The plane through the origin with the given normals, which
    [Plane.encode] builds before it looks at its second argument. *)
Definition origin_plane (normals : tensor) (lead : list nat) : tensor :=
  tabulate (dtype normals) (lead ++ [16])
    (fun q =>
       if (2 <=? q mod 16) && (q mod 16 <? 5)
       then convert (dtype normals) (dtype normals)
              (item normals ((q / 16) * (5 - 2) + (q mod 16 - 2)))
       else item (zeros (dtype normals) (lead ++ [16])) q).

(** Two positions in one batch. *)
Definition sample_positions : tensor :=
  Tensor Floating [2; 3] [1; 0; 0; 0; 2; - (1 # 3)]%Q.


(* ================================================================== *)
(** ** Facts about the tensor substrate *)

Section TorchFacts.

Lemma numel_app (a b : list nat) : numel (a ++ b) = numel a * numel b.
Proof.
  induction a as [|d a IH]; simpl.
  - lia.
  - rewrite IH. lia.
Qed.

Lemma numel_snoc (lead : list nat) (n : nat) :
  numel (lead ++ [n]) = numel lead * n.
Proof. rewrite numel_app. simpl. lia. Qed.

Lemma last_axis_snoc (lead : list nat) (n : nat) :
  last_axis (lead ++ [n]) = Some (lead, n).
Proof.
  unfold last_axis. rewrite rev_app_distr. simpl.
  now rewrite rev_involutive.
Qed.

Lemma last_axis_nil : last_axis [] = None.
Proof. reflexivity. Qed.

Lemma shape_eqb_refl (s : list nat) : shape_eqb s s = true.
Proof. unfold shape_eqb. destruct (list_eq_dec Nat.eq_dec s s); congruence. Qed.

Lemma item_tabulate (d : scalar_type) (s : list nat) (f : nat -> Q) (p : nat) :
  p < numel s -> item (tabulate d s f) p = f p.
Proof.
  intros Hp. unfold item, tabulate. simpl.
  rewrite (nth_indep _ 0%Q (f 0)) by (rewrite length_map, length_seq; exact Hp).
  rewrite map_nth. rewrite seq_nth by exact Hp. reflexivity.
Qed.

Lemma tabulate_ext (d : scalar_type) (s : list nat) (f g : nat -> Q) :
  (forall p, p < numel s -> f p = g p) -> tabulate d s f = tabulate d s g.
Proof.
  intros H. unfold tabulate. f_equal. apply map_ext_in.
  intros p Hp. apply in_seq in Hp. apply H. lia.
Qed.

Lemma wf_tabulate (d : scalar_type) (s : list nat) (f : nat -> Q) :
  wf (tabulate d s f).
Proof. unfold wf, tabulate. simpl. now rewrite length_map, length_seq. Qed.

Lemma row_mod (r n j : nat) : j < n -> (r * n + j) mod n = j.
Proof.
  intros Hj. symmetry. apply (Nat.mod_unique _ _ r); [exact Hj | lia].
Qed.

Lemma row_div (r n j : nat) : j < n -> (r * n + j) / n = r.
Proof.
  intros Hj. symmetry. apply (Nat.div_unique _ _ _ j); [exact Hj | lia].
Qed.

Lemma row_lt (r n j m : nat) : r < m -> j < n -> r * n + j < m * n.
Proof. intros Hr Hj. nia. Qed.

(** Every flat position of a tensor with a last axis is a row and a column. *)
Lemma row_col (m n p : nat) :
  p < m * n -> p = (p / n) * n + p mod n /\ p / n < m /\ p mod n < n.
Proof.
  intros Hp. assert (Hn : n <> 0) by (intros ->; lia).
  pose proof (Nat.div_mod p n Hn) as E.
  pose proof (Nat.mod_upper_bound p n Hn) as B.
  split; [lia|]. split; [|exact B].
  apply Nat.Div0.div_lt_upper_bound. lia.
Qed.

(** Two well-formed tensors with equal shapes and entries are equal. *)
Lemma teq_pointwise (a b : tensor) :
  wf a -> wf b -> shape a = shape b ->
  (forall p, p < numel (shape a) -> (item a p == item b p)%Q) ->
  teq a b.
Proof.
  intros Wa Wb Hs Hp. split; [exact Hs|].
  unfold wf in *. rewrite <- Hs in Wb. unfold item in Hp.
  rewrite <- Wa in Hp. clear Hs.
  destruct a as [ta sa da], b as [tb sb db]; simpl in *.
  rewrite <- Wb in Wa. clear Wb sa sb ta tb.
  revert db Wa Hp. induction da as [|x da IH]; intros [|y db] Hl Hp;
    simpl in *; try discriminate; constructor.
  - apply (Hp 0). lia.
  - apply IH; [lia|]. intros p Hlt. apply (Hp (S p)). lia.
Qed.

(** Storing into a tensor of the same dtype changes nothing, and neither
    does storing into a floating tensor. *)
Lemma convert_same (d : scalar_type) (v : Q) : convert d d v = v.
Proof. now destruct d. Qed.

Lemma convert_floating (src : scalar_type) (v : Q) : convert src Floating v = v.
Proof. now destruct src. Qed.

(** The constant [1.0] is stored as 1 whatever the dtype. *)
Lemma convert_one (d : scalar_type) : convert Floating d 1%Q = 1%Q.
Proof. now destruct d. Qed.

(** Truncation depends on the value only, and is odd. *)
Lemma trunc_comp (x y : Q) : (x == y)%Q -> trunc x = trunc y.
Proof.
  intros E. unfold trunc.
  assert (B : Qle_bool 0 x = Qle_bool 0 y) by now rewrite E.
  rewrite B. destruct (Qle_bool 0 y); f_equal;
    [now apply Qfloor_comp | now apply Qceiling_comp].
Qed.

Lemma trunc_opp (x : Q) : (trunc (- x) == - trunc x)%Q.
Proof.
  unfold trunc, Qceiling.
  assert (Eo : Qfloor (- - x) = Qfloor x)
    by (apply Qfloor_comp; apply Qopp_involutive).
  rewrite Eo.
  destruct (Qle_bool 0 x) eqn:Bx; destruct (Qle_bool 0 (- x)) eqn:Bn.
  - apply Qle_bool_iff in Bx, Bn.
    assert (Ex : (x == 0)%Q).
    { apply Qle_antisym; [|exact Bx].
      apply Qopp_le_compat in Bn. rewrite Qopp_involutive in Bn. exact Bn. }
    assert (En : (- x == 0)%Q) by (rewrite Ex; reflexivity).
    rewrite (Qfloor_comp _ _ Ex), (Qfloor_comp _ _ En). reflexivity.
  - rewrite inject_Z_opp. reflexivity.
  - rewrite inject_Z_opp, Qopp_involutive. reflexivity.
  - exfalso.
    assert (Hx : ~ (0 <= x)%Q) by (rewrite <- Qle_bool_iff; congruence).
    assert (Hn : ~ (0 <= - x)%Q) by (rewrite <- Qle_bool_iff; congruence).
    apply Qnot_le_lt in Hx. apply Hn.
    apply Qlt_le_weak in Hx. apply Qopp_le_compat in Hx. exact Hx.
Qed.

Lemma convert_comp (src dst : scalar_type) (x y : Q) :
  (x == y)%Q -> (convert src dst x == convert src dst y)%Q.
Proof.
  intros E. destruct src, dst; cbn [convert]; try exact E.
  now rewrite (trunc_comp x y E).
Qed.

Lemma convert_opp (src dst : scalar_type) (x : Q) :
  (convert src dst (- x) == - convert src dst x)%Q.
Proof.
  destruct src, dst; cbn [convert]; try reflexivity. apply trunc_opp.
Qed.

End TorchFacts.

(** The index operations on a tensor whose shape ends in an axis of size [n]. *)
Section IndexFacts.

Variables (t : tensor) (lead : list nat) (n : nat).
Hypothesis Hshape : shape t = lead ++ [n].

Lemma set_last_scalar_snoc (k : nat) (c : Q) :
  k < n ->
  set_last_scalar t k c =
    Ok (tabulate (dtype t) (lead ++ [n])
          (fun p => if p mod n =? k
                    then convert Floating (dtype t) c
                    else item t p)).
Proof.
  intros Hk. unfold set_last_scalar. rewrite Hshape, last_axis_snoc.
  apply Nat.ltb_lt in Hk. now rewrite Hk.
Qed.

Lemma slice_all_snoc : slice_all t = Ok t.
Proof. unfold slice_all. now rewrite Hshape, last_axis_snoc. Qed.

Lemma select_last_snoc (k : nat) :
  k < n ->
  select_last t k = Ok (tabulate (dtype t) lead (fun r => item t (r * n + k))).
Proof.
  intros Hk. unfold select_last. rewrite Hshape, last_axis_snoc.
  apply Nat.ltb_lt in Hk. now rewrite Hk.
Qed.

Lemma index_last_snoc (k : nat) :
  k < n ->
  index_last t k =
    Ok (tabulate (dtype t) (lead ++ [1]) (fun r => item t (r * n + k))).
Proof.
  intros Hk. unfold index_last. rewrite Hshape, last_axis_snoc.
  replace (n =? 0) with false by (symmetry; apply Nat.eqb_neq; lia).
  apply Nat.ltb_lt in Hk. now rewrite Hk.
Qed.

Lemma slice_last_snoc (a b : nat) :
  a <= b -> b <= n ->
  slice_last t a b =
    Ok (tabulate (dtype t) (lead ++ [b - a])
          (fun p => item t ((p / (b - a)) * n + (a + p mod (b - a))))).
Proof.
  intros Hab Hb. unfold slice_last. rewrite Hshape, last_axis_snoc.
  rewrite (Nat.min_l b n) by exact Hb. rewrite (Nat.min_l a n) by lia.
  reflexivity.
Qed.

Lemma set_last_same (k : nat) (v : tensor) :
  k < n -> shape v = lead ->
  set_last t k v =
    Ok (tabulate (dtype t) (lead ++ [n])
          (fun p => if p mod n =? k
                    then convert (dtype v) (dtype t) (item v (p / n))
                    else item t p)).
Proof.
  intros Hk Hv. unfold set_last. rewrite Hshape, last_axis_snoc.
  apply Nat.ltb_lt in Hk. rewrite Hk. unfold copy_to.
  rewrite Hv, shape_eqb_refl. reflexivity.
Qed.

Lemma set_last_slice_same (a b : nat) (v : tensor) :
  a <= b -> b <= n -> shape v = lead ++ [b - a] ->
  set_last_slice t a b v =
    Ok (tabulate (dtype t) (lead ++ [n])
          (fun p =>
             if (a <=? p mod n) && (p mod n <? b)
             then convert (dtype v) (dtype t)
                    (item v ((p / n) * (b - a) + (p mod n - a)))
             else item t p)).
Proof.
  intros Hab Hb Hv. unfold set_last_slice. rewrite Hshape, last_axis_snoc.
  rewrite (Nat.min_l b n) by exact Hb. rewrite (Nat.min_l a n) by lia.
  unfold copy_to. rewrite Hv, shape_eqb_refl. reflexivity.
Qed.

End IndexFacts.

Ltac item_tab :=
  repeat (rewrite item_tabulate
            by (rewrite ?numel_snoc; first [assumption | nia | lia])).

(* ================================================================== *)
(** ** Broadcasting facts *)

Section BroadcastFacts.

Lemma numel_rev (s : list nat) : numel (rev s) = numel s.
Proof.
  induction s as [|d s IH]; simpl; [reflexivity|].
  rewrite numel_app, IH. simpl. lia.
Qed.

Lemma broadcast_rev_same (r : list nat) : broadcast_rev r r = Some r.
Proof.
  induction r as [|d r IH]; simpl; [reflexivity|].
  now rewrite IH, Nat.eqb_refl.
Qed.

Lemma broadcast_shapes_same (s : list nat) : broadcast_shapes s s = Some s.
Proof.
  unfold broadcast_shapes. rewrite broadcast_rev_same. simpl.
  now rewrite rev_involutive.
Qed.

(** A last axis of size one is stretched to the other operand's. *)
Lemma broadcast_shapes_last1 (lead : list nat) (n : nat) :
  broadcast_shapes (lead ++ [n]) (lead ++ [1]) = Some (lead ++ [n]).
Proof.
  unfold broadcast_shapes. rewrite !rev_app_distr. simpl.
  rewrite broadcast_rev_same.
  destruct (n =? 1) eqn:E; simpl; now rewrite rev_involutive.
Qed.

Lemma src_pos_same (r : list nat) (p : nat) :
  p < numel r -> src_pos r r p = p.
Proof.
  revert p. induction r as [|d r IH]; intros p Hp; simpl in *; [lia|].
  assert (Hd : d <> 0) by (intros ->; simpl in Hp; lia).
  rewrite IH by (apply Nat.Div0.div_lt_upper_bound; lia).
  pose proof (Nat.div_mod p d Hd) as E.
  destruct (d =? 1) eqn:E1.
  - apply Nat.eqb_eq in E1. subst d. rewrite Nat.div_1_r. lia.
  - lia.
Qed.

Lemma src_pos_last1 (rl : list nat) (n p : nat) :
  p < n * numel rl -> src_pos (n :: rl) (1 :: rl) p = p / n.
Proof.
  intros Hp. simpl.
  rewrite src_pos_same by (apply Nat.Div0.div_lt_upper_bound; lia). lia.
Qed.

End BroadcastFacts.

(** Reduce the entry of a tabulated tensor at a row and a column. *)
Ltac entry :=
  repeat first
    [ rewrite item_tabulate
        by (rewrite ?numel_snoc; first [assumption | nia | lia])
    | rewrite row_mod by lia
    | rewrite row_div by lia
    | rewrite convert_same
    | rewrite convert_one ].

(* ================================================================== *)
(** ** Translation *)

Lemma translation_encode_eq (delta : tensor) (lead : list nat) :
  shape delta = lead ++ [3] ->
  Translation.encode delta = Ok (encoded_translation delta lead).
Proof.
  intros Hs. unfold Translation.encode.
  rewrite Hs, removelast_last.
  rewrite set_last_scalar_snoc with (lead := lead) (n := 16)
    by (reflexivity || lia).
  cbn [bind]. rewrite slice_all_snoc with (1 := Hs). cbn [bind].
  rewrite set_last_slice_same with (lead := lead) (n := 16)
    by (reflexivity || lia || exact Hs).
  reflexivity.
Qed.

Lemma encoded_translation_scalar (delta : tensor) (lead : list nat) (r : nat) :
  r < numel lead -> item (encoded_translation delta lead) (r * 16 + 0) = 1%Q.
Proof.
  intros Hr. unfold encoded_translation. entry. cbn [Nat.leb andb].
  entry. reflexivity.
Qed.

Lemma encoded_translation_bivector (delta : tensor) (lead : list nat)
    (r j : nat) :
  shape delta = lead ++ [3] -> r < numel lead -> j < 3 ->
  item (encoded_translation delta lead) (r * 16 + (5 + j)) =
    convert Floating (dtype delta) (- (1 # 2) * item delta (r * 3 + j))%Q.
Proof.
  intros Hs Hr Hj. unfold encoded_translation. entry.
  replace ((5 <=? 5 + j) && (5 + j <? 8)) with true
    by (symmetry; apply andb_true_intro; split;
        [apply Nat.leb_le | apply Nat.ltb_lt]; lia).
  unfold scale. rewrite Hs. change (8 - 5) with 3.
  replace (5 + j - 5) with j by lia. entry. reflexivity.
Qed.




(** What [decode] reads from a multivector tensor: the translation part
    scaled by -2, and, when asked to, divided by the clamped scalar part. *)
Lemma translation_decode_plain (mvs : tensor) (lead : list nat) (threshold : Q) :
  shape mvs = lead ++ [16] ->
  Translation.decode mvs false threshold =
    Ok (tabulate Floating (lead ++ [3])
          (fun p => (- (2 # 1) * item mvs ((p / 3) * 16 + (5 + p mod 3)))%Q)).
Proof.
  intros Hs. unfold Translation.decode.
  rewrite slice_last_snoc with (lead := lead) (n := 16) by (exact Hs || lia).
  cbn [bind]. unfold scale. cbn [shape tabulate].
  change (8 - 5) with 3. f_equal. apply tabulate_ext. intros p Hp.
  rewrite item_tabulate by exact Hp. reflexivity.
Qed.

Lemma translation_decode_divided (mvs : tensor) (lead : list nat) (threshold : Q) :
  shape mvs = lead ++ [16] ->
  Translation.decode mvs true threshold =
    Ok (tabulate Floating (lead ++ [3])
          (fun p =>
             let e := item mvs ((p / 3) * 16 + 0) in
             ((- (2 # 1) * item mvs ((p / 3) * 16 + (5 + p mod 3)))
              / (if abs_gt threshold e then e else threshold))%Q)).
Proof.
  intros Hs. unfold Translation.decode.
  rewrite slice_last_snoc with (lead := lead) (n := 16) by (exact Hs || lia).
  cbn [bind].
  rewrite index_last_snoc with (lead := lead) (n := 16) by (exact Hs || lia).
  cbn [bind]. unfold div, binop, where_abs_gt, scale. cbn [shape tabulate].
  change (8 - 5) with 3. rewrite broadcast_shapes_last1.
  f_equal. apply tabulate_ext. intros p Hp.
  rewrite numel_snoc in Hp.
  rewrite !rev_app_distr. cbn [rev app].
  rewrite src_pos_same by (simpl; rewrite numel_rev; lia).
  rewrite src_pos_last1 by (rewrite numel_rev; lia).
  destruct (row_col (numel lead) 3 p Hp) as (_ & Hr & Hc).
  item_tab. reflexivity.
Qed.

Lemma abs_gt_true (threshold v : Q) :
  (threshold < Qabs v)%Q -> abs_gt threshold v = true.
Proof.
  intros H. unfold abs_gt. destruct (Qle_bool (Qabs v) threshold) eqn:E.
  - apply Qle_bool_iff in E. exfalso. exact (Qlt_not_le _ _ H E).
  - reflexivity.
Qed.

Lemma abs_gt_false (threshold v : Q) :
  (Qabs v <= threshold)%Q -> abs_gt threshold v = false.
Proof.
  intros H. unfold abs_gt. apply Qle_bool_iff in H. now rewrite H.
Qed.







(** C7. With [divide_by_embedding_dim=True], [Translation.decode] returns
    -2 times the components 5, 6, 7 of every multivector, each divided by
    a denominator taken from the scalar component [e] of that multivector:
    [e] itself where its absolute value exceeds the threshold, and
    otherwise the threshold itself, with its own sign whatever the sign
    of [e].  The division is always carried out. *)
Theorem translation_decode_clamp (mvs : tensor) (lead : list nat) (threshold : Q) :
  shape mvs = lead ++ [16] ->
  exists out,
    Translation.decode mvs true threshold = Ok out
    /\ shape out = lead ++ [3]
    /\ wf out
    /\ forall r j, r < numel lead -> j < 3 ->
         let e := item mvs (r * 16) in
         exists d,
           item out (r * 3 + j) =
             ((- (2 # 1) * item mvs (r * 16 + (5 + j))) / d)%Q
           /\ ((Qabs e <= threshold)%Q -> d = threshold)
           /\ ((threshold < Qabs e)%Q -> d = e).
Proof.
  intros Hs. rewrite (translation_decode_divided mvs lead threshold Hs).
  eexists. split; [reflexivity|]. split; [reflexivity|].
  split; [apply wf_tabulate|].
  intros r j Hr Hj e. item_tab. cbv zeta.
  rewrite row_div, row_mod by exact Hj. rewrite Nat.add_0_r. fold e.
  exists (if abs_gt threshold e then e else threshold).
  split; [reflexivity|]. split; intros H.
  - now rewrite abs_gt_false.
  - now rewrite abs_gt_true.
Qed.

Lemma translation_decode_clamp_witness :
  exists out,
    Translation.decode sample_mvs true Translation.default_threshold = Ok out
    /\ shape out = [1] ++ [3]
    /\ wf out
    /\ forall r j, r < numel [1] -> j < 3 ->
         let e := item sample_mvs (r * 16) in
         exists d,
           item out (r * 3 + j) =
             ((- (2 # 1) * item sample_mvs (r * 16 + (5 + j))) / d)%Q
           /\ ((Qabs e <= Translation.default_threshold)%Q
               -> d = Translation.default_threshold)
           /\ ((Translation.default_threshold < Qabs e)%Q -> d = e).
Proof.
  apply (translation_decode_clamp sample_mvs [1] Translation.default_threshold).
  reflexivity.
Defined.

(* ================================================================== *)
(** ** Point *)

(** C8. For every tensor of points with a last axis of size 3,
    [Point.encode] returns a tensor with a last axis of size 16 whose
    component 14 is 1, component 13 is minus the first coordinate,
    component 12 is the second coordinate, component 11 is minus the
    third coordinate, and whose other components are zero. *)
Theorem point_encode_layout (points : tensor) (lead : list nat) :
  shape points = lead ++ [3] ->
  exists mvs,
    Point.encode points = Ok mvs
    /\ shape mvs = lead ++ [16]
    /\ wf mvs
    /\ forall r j, r < numel lead -> j < 16 ->
         item mvs (r * 16 + j) =
           if j =? 14 then 1%Q
           else if j =? 13 then (- item points (r * 3 + 0))%Q
           else if j =? 12 then item points (r * 3 + 1)
           else if j =? 11 then (- item points (r * 3 + 2))%Q
           else 0%Q.
Proof.
  intros Hs. unfold Point.encode. rewrite Hs, removelast_last.
  rewrite set_last_scalar_snoc with (lead := lead) (n := 16)
    by (reflexivity || lia).
  cbn [bind].
  rewrite !select_last_snoc with (lead := lead) (n := 3) by (exact Hs || lia).
  cbn [bind].
  rewrite set_last_same with (lead := lead) (n := 16) by (reflexivity || lia).
  cbn [bind].
  rewrite set_last_same with (lead := lead) (n := 16) by (reflexivity || lia).
  cbn [bind].
  rewrite set_last_same with (lead := lead) (n := 16) by (reflexivity || lia).
  cbn [bind].
  eexists. split; [reflexivity|]. split; [reflexivity|].
  split; [apply wf_tabulate|].
  intros r j Hr Hj. unfold neg, zeros. cbn [shape tabulate].
  entry.
  destruct (j =? 11) eqn:E11.
  { apply Nat.eqb_eq in E11. subst j. entry. reflexivity. }
  entry. destruct (j =? 12) eqn:E12.
  { apply Nat.eqb_eq in E12. subst j. reflexivity. }
  entry. destruct (j =? 13) eqn:E13.
  { apply Nat.eqb_eq in E13. subst j. entry. reflexivity. }
  entry. destruct (j =? 14) eqn:E14.
  { apply Nat.eqb_eq in E14. subst j. reflexivity. }
  entry. reflexivity.
Qed.

Lemma point_encode_layout_witness :
  exists mvs,
    Point.encode sample_delta = Ok mvs
    /\ shape mvs = [2] ++ [16]
    /\ wf mvs
    /\ forall r j, r < numel [2] -> j < 16 ->
         item mvs (r * 16 + j) =
           if j =? 14 then 1%Q
           else if j =? 13 then (- item sample_delta (r * 3 + 0))%Q
           else if j =? 12 then item sample_delta (r * 3 + 1)
           else if j =? 11 then (- item sample_delta (r * 3 + 2))%Q
           else 0%Q.
Proof. apply (point_encode_layout sample_delta [2]). reflexivity. Defined.

(* ================================================================== *)
(** ** Plane *)

(** A distance given as a 1-dimensional tensor, one entry per normal: the
    normal goes to components 2, 3, 4, the distance, converted to the
    dtype of the normals, to component 1, and the product is never
    called. *)
Lemma plane_encode_distance_1dim
    (gp : tensor -> tensor -> result tensor) (normals distance : tensor)
    (k : nat) :
  shape normals = [k] ++ [3] -> shape distance = [k] ->
  exists mvs,
    Plane.encode gp normals distance = Ok mvs
    /\ shape mvs = [k] ++ [16]
    /\ wf mvs
    /\ forall r j, r < k -> j < 16 ->
         item mvs (r * 16 + j) =
           if j =? 1
           then convert (dtype distance) (dtype normals) (item distance r)
           else if (2 <=? j) && (j <? 5) then item normals (r * 3 + (j - 2))
           else 0%Q.
Proof.
  intros Hn Hd. unfold Plane.encode. rewrite Hn, removelast_last.
  rewrite slice_all_snoc with (1 := Hn). cbn [bind].
  rewrite set_last_slice_same with (lead := [k]) (n := 16)
    by (reflexivity || lia || exact Hn).
  cbn [bind]. unfold dim. rewrite Hd. cbn [List.length Nat.eqb].
  rewrite set_last_same with (lead := [k]) (n := 16)
    by (reflexivity || lia || exact Hd).
  cbn [bind]. eexists. split; [reflexivity|]. split; [reflexivity|].
  split; [apply wf_tabulate|].
  intros r j Hr Hj. unfold zeros.
  assert (Hr' : r < numel [k]) by (simpl; lia).
  entry. destruct (j =? 1) eqn:E1; [reflexivity|].
  entry. destruct ((2 <=? j) && (j <? 5)); [reflexivity|].
  entry. reflexivity.
Qed.

(** One normal and a distance given as a 1-dimensional tensor with a
    single entry. *)
Example plane_encode_single_distance
    (gp : tensor -> tensor -> result tensor) :
  Plane.encode gp (Tensor Floating [3] [0; 0; 1]%Q) (Tensor Floating [1] [2]%Q)
    = Ok (Tensor Floating [16]
            [0; 2; 0; 0; 1; 0; 0; 0; 0; 0; 0; 0; 0; 0; 0; 0]%Q).
Proof. reflexivity. Qed.

(** C9, at a 0-dimensional distance.  [distance.dim()] is 0, not 1, so
    the distance is taken for a position: [Translation.encode] is called
    on it and raises when it slices the last axis of a tensor that has
    none.  No multivector is returned. *)
Theorem plane_encode_distance_0dim
    (gp : tensor -> tensor -> result tensor) :
  Plane.encode gp (Tensor Floating [3] [0; 0; 1]%Q) (Tensor Floating [] [2]%Q)
    = Raise IndexError.
Proof. reflexivity. Qed.

(** The same for every normal tensor and every 0-dimensional distance. *)
Lemma plane_encode_distance_0dim_all
    (gp : tensor -> tensor -> result tensor) (normals distance : tensor) :
  shape distance = [] -> fails_explicitly (Plane.encode gp normals distance).
Proof.
  intros Hd. unfold fails_explicitly, Plane.encode.
  destruct (slice_all normals) as [n|e]; cbn [bind]; [|now exists e].
  destruct (set_last_slice _ 2 5 n) as [m|e]; cbn [bind]; [|now exists e].
  unfold dim. rewrite Hd. cbn [List.length Nat.eqb].
  unfold Translation.encode at 1. rewrite Hd. cbn [removelast app].
  unfold slice_all at 1. rewrite Hd. cbn [rev last_axis bind].
  exists IndexError. reflexivity.
Qed.

(* ================================================================== *)
(** ** The capabilities that are declared and left empty *)

(** C3, as the code has it.  The bodies of [Point.decode], [Plane.decode],
    [Rotation.encode] and [Rotation.decode] are empty: whatever the
    argument, each call returns [None] and raises nothing. *)
Theorem unimplemented_return_none (t : tensor) :
  Point.decode t = Ok PyNone
  /\ Plane.decode t = Ok PyNone
  /\ Rotation.encode t = Ok PyNone
  /\ Rotation.decode t = Ok PyNone.
Proof. repeat split. Qed.

(** C3 as stated does not hold: none of the four calls fails. *)
Lemma unimplemented_do_not_fail :
  ~ fails_explicitly (Point.decode sample_mvs)
  /\ ~ fails_explicitly (Plane.decode sample_mvs)
  /\ ~ fails_explicitly (Rotation.encode sample_mvs)
  /\ ~ fails_explicitly (Rotation.decode sample_mvs).
Proof. repeat split; intros [e He]; discriminate He. Qed.

(** [Reflection.decode] hands back what [Plane.decode] returns. *)
Lemma reflection_decode_none (t : tensor) : Reflection.decode t = Ok PyNone.
Proof. reflexivity. Qed.

(* ================================================================== *)
(** ** The channel axis *)

Section ChannelFacts.

Lemma channel_axes_snoc (lead : list nat) (c n : nat) :
  channel_axes (lead ++ [c; n]) = Some (lead, c, n).
Proof.
  unfold channel_axes. rewrite rev_app_distr. simpl.
  now rewrite rev_involutive.
Qed.

Lemma channels_snoc (t : tensor) (lead : list nat) (c n : nat) :
  shape t = lead ++ [c; n] -> channels t = Some c.
Proof. intros H. unfold channels. now rewrite H, channel_axes_snoc. Qed.

Lemma numel_snoc2 (lead : list nat) (c n : nat) :
  numel (lead ++ [c; n]) = numel lead * c * n.
Proof. rewrite numel_app. simpl. lia. Qed.

Lemma narrow2_item (t : tensor) (lead : list nat) (c n start len r ch j : nat) :
  r < numel lead -> ch < len -> j < n ->
  item (narrow2 t lead c n start len) ((r * len + ch) * n + j) =
    item t ((r * c + (start + ch)) * n + j).
Proof.
  intros Hr Hc Hj. unfold narrow2.
  rewrite item_tabulate
    by (rewrite numel_snoc2; apply row_lt; [apply row_lt|]; assumption).
  cbv zeta. rewrite row_mod, row_div by exact Hj.
  rewrite row_mod, row_div by exact Hc. reflexivity.
Qed.

(** Splitting [4 * k] channels in chunks of [k] gives four chunks. *)
Lemma split2_four (y : tensor) (lead : list nat) (k n : nat) :
  shape y = lead ++ [4 * k; n] -> 0 < k ->
  split2 y (Z.of_nat k) =
    Ok [narrow2 y lead (4 * k) n (0 * k) k;
        narrow2 y lead (4 * k) n (1 * k) k;
        narrow2 y lead (4 * k) n (2 * k) k;
        narrow2 y lead (4 * k) n (3 * k) k].
Proof.
  intros Hs Hk. unfold split2. rewrite Hs, channel_axes_snoc.
  replace (Z.of_nat k <? 0)%Z with false by (symmetry; apply Z.ltb_ge; lia).
  rewrite Nat2Z.id.
  replace (k =? 0) with false by (symmetry; apply Nat.eqb_neq; lia).
  cbn [andb].
  assert (E : (4 * k + k - 1) / k = 4).
  { symmetry. apply (Nat.div_unique _ _ _ (k - 1)); lia. }
  rewrite E. cbn [Nat.max seq map Nat.add Nat.ltb Nat.leb Nat.sub].
  replace (4 * k - k * 3) with k by lia. reflexivity.
Qed.

Lemma cat2_ok (a b : tensor) (lead : list nat) (ca cb n : nat) :
  shape a = lead ++ [ca; n] -> shape b = lead ++ [cb; n] ->
  exists c, cat2 a b = Ok c /\ shape c = lead ++ [ca + cb; n].
Proof.
  intros Ha Hb. unfold cat2. rewrite Ha, Hb, !channel_axes_snoc.
  rewrite shape_eqb_refl, Nat.eqb_refl. cbn [andb].
  eexists. split; reflexivity.
Qed.

Lemma channel_group_ok (y : tensor) (lead : list nat) (c n k i : nat) :
  shape y = lead ++ [c; n] -> (i + 1) * k <= c ->
  Described.channel_group y k i = Ok (narrow2 y lead c n (i * k) k).
Proof.
  intros Hs Hi. unfold Described.channel_group.
  rewrite Hs, channel_axes_snoc. apply Nat.leb_le in Hi. now rewrite Hi.
Qed.

Lemma narrow2_is_group (y : tensor) (lead : list nat) (c k i : nat) :
  Described.is_group y lead c k i (narrow2 y lead c 16 (i * k) k).
Proof.
  split; [reflexivity|]. intros r ch j Hr Hc Hj.
  now apply narrow2_item.
Qed.

(** Half of an even positive channel count. *)
Lemma half_channels (i : Z) :
  (i mod 2 = 0)%Z -> (0 < i)%Z ->
  0 < Z.to_nat (i / 2)
  /\ Z.of_nat (Z.to_nat (i / 2)) = (i / 2)%Z
  /\ Z.to_nat (i * 2) = 4 * Z.to_nat (i / 2)
  /\ Z.to_nat i = Z.to_nat (i / 2) + Z.to_nat (i / 2).
Proof.
  intros He Hp. pose proof (Z.div_mod i 2 ltac:(lia)) as E.
  rewrite He in E. generalize dependent (i / 2)%Z. intros q E. lia.
Qed.

End ChannelFacts.

(* ================================================================== *)
(** ** Bilinear *)

Section BilinearFacts.

Context {E : Collaborators}.

Lemma bilinear_init_odd (config : ModelConfig) :
  (size_channels_intermediate config mod 2 <> 0)%Z ->
  Bilinear.__init__ config =
    Raise (ValueError "Number of hidden channels must be even.").
Proof.
  intros H. unfold Bilinear.__init__.
  apply Z.eqb_neq in H. now rewrite H.
Qed.

Lemma bilinear_init_even (config : ModelConfig) :
  (size_channels_intermediate config mod 2 = 0)%Z ->
  Bilinear.__init__ config =
    (proj_bil <- EquiLinear_init (size_channels_hidden config)
                   (size_channels_intermediate config * 2) ;;
     proj_out <- EquiLinear_init (size_channels_intermediate config)
                   (size_channels_hidden config) ;;
     Ok {| Bilinear.config := config;
           Bilinear.proj_bil := proj_bil;
           Bilinear.proj_out := proj_out |}).
Proof.
  intros H. unfold Bilinear.__init__.
  apply Z.eqb_eq in H. now rewrite H.
Qed.

(** What a constructed [Bilinear] is made of. *)
Lemma bilinear_init_inv (config : ModelConfig) (self : Bilinear.t) :
  Bilinear.__init__ config = Ok self ->
  (size_channels_intermediate config mod 2 = 0)%Z
  /\ Bilinear.config self = config
  /\ EquiLinear_init (size_channels_hidden config)
       (size_channels_intermediate config * 2) = Ok (Bilinear.proj_bil self)
  /\ EquiLinear_init (size_channels_intermediate config)
       (size_channels_hidden config) = Ok (Bilinear.proj_out self).
Proof.
  intros H.
  destruct (Z.eq_dec (size_channels_intermediate config mod 2) 0) as [He|Ho].
  - rewrite (bilinear_init_even config He) in H.
    destruct (EquiLinear_init (size_channels_hidden config) _) as [pb|e];
      cbn [bind] in H; [|discriminate].
    destruct (EquiLinear_init (size_channels_intermediate config) _) as [po|e];
      cbn [bind] in H; [|discriminate].
    injection H as <-. repeat split. exact He.
  - rewrite (bilinear_init_odd config Ho) in H. discriminate.
Qed.

End BilinearFacts.

Section BilinearForward.

Context {E : Collaborators} (HC : Contracts E).

(** The projected input has [4 * k] channels for
    [k = size_channels_intermediate / 2]; [forward] works on its four
    chunks of [k] channels. *)
Lemma bilinear_forward_split (config : ModelConfig) (self : Bilinear.t)
    (x : tensor) (lead : list nat) (reference : option tensor) :
  Bilinear.__init__ config = Ok self ->
  (0 < size_channels_intermediate config)%Z ->
  shape x = lead ++ [Z.to_nat (size_channels_hidden config); 16] ->
  let k := Z.to_nat (size_channels_intermediate config / 2) in
  exists y,
    EquiLinear_call (Bilinear.proj_bil self) x = Ok y
    /\ shape y = lead ++ [4 * k; 16]
    /\ Bilinear.forward self x reference =
         (g <- geometric_product (narrow2 y lead (4 * k) 16 (0 * k) k)
                 (narrow2 y lead (4 * k) 16 (1 * k) k) ;;
          j <- equi_join (narrow2 y lead (4 * k) 16 (2 * k) k)
                 (narrow2 y lead (4 * k) 16 (3 * k) k) reference ;;
          c <- cat2 g j ;;
          EquiLinear_call (Bilinear.proj_out self) c)
    /\ (forall g j,
          shape g = lead ++ [k; 16] -> shape j = lead ++ [k; 16] ->
          exists c out,
            cat2 g j = Ok c
            /\ shape c = lead ++ [Z.to_nat (size_channels_intermediate config); 16]
            /\ EquiLinear_call (Bilinear.proj_out self) c = Ok out
            /\ shape out = lead ++ [Z.to_nat (size_channels_hidden config); 16]).
Proof.
  intros Hinit Hpos Hx k.
  destruct (bilinear_init_inv config self Hinit) as (He & Hc & Hpb & Hpo).
  destruct (half_channels _ He Hpos) as (Hk & Hkz & H4 & H2).
  fold k in Hk, Hkz, H4, H2.
  destruct (linear_call_ok _ _ _ x lead Hpb Hx) as (y & Hy & Hsy).
  rewrite H4 in Hsy.
  exists y. split; [exact Hy|]. split; [exact Hsy|]. split.
  - unfold Bilinear.forward. rewrite Hc, Hy. cbn [bind].
    rewrite <- Hkz. fold k.
    rewrite (split2_four y lead k 16 Hsy Hk). reflexivity.
  - intros g j Hg Hj.
    destruct (cat2_ok g j lead k k 16 Hg Hj) as (c & Hcat & Hsc).
    rewrite <- H2 in Hsc.
    destruct (linear_call_ok _ _ _ c lead Hpo Hsc) as (out & Hout & Hso).
    exists c, out. repeat split; assumption.
Qed.

(** C1. For a constructed [Bilinear] and every input with
    [size_channels_hidden] channels, with or without a reference:
    [proj_bil] returns [2 * size_channels_intermediate] channels; they
    split into four groups of [size_channels_intermediate / 2] channels,
    in the order left and right operand of the geometric product, left and
    right operand of the join; [forward] is the final projection
    [proj_out] of the concatenation of the product of the first pair and
    the join (with the reference) of the second pair, which has
    [size_channels_intermediate] channels and is projected back to
    [size_channels_hidden] channels. *)
Theorem bilinear_forward_steps (config : ModelConfig) (self : Bilinear.t)
    (x : tensor) (lead : list nat) (reference : option tensor) :
  Bilinear.__init__ config = Ok self ->
  (0 < size_channels_intermediate config)%Z ->
  shape x = lead ++ [Z.to_nat (size_channels_hidden config); 16] ->
  let k := Z.to_nat (size_channels_intermediate config / 2) in
  exists y lg rg lj rj,
    EquiLinear_call (Bilinear.proj_bil self) x = Ok y
    /\ shape y = lead ++ [Z.to_nat (size_channels_intermediate config * 2); 16]
    /\ Z.to_nat (size_channels_intermediate config * 2) = 4 * k
    /\ Described.is_group y lead (4 * k) k 0 lg
    /\ Described.is_group y lead (4 * k) k 1 rg
    /\ Described.is_group y lead (4 * k) k 2 lj
    /\ Described.is_group y lead (4 * k) k 3 rj
    /\ Bilinear.forward self x reference =
         (g <- geometric_product lg rg ;;
          j <- equi_join lj rj reference ;;
          c <- cat2 g j ;;
          EquiLinear_call (Bilinear.proj_out self) c)
    /\ (forall g j,
          shape g = lead ++ [k; 16] -> shape j = lead ++ [k; 16] ->
          exists c out,
            cat2 g j = Ok c
            /\ shape c = lead ++ [Z.to_nat (size_channels_intermediate config); 16]
            /\ EquiLinear_call (Bilinear.proj_out self) c = Ok out
            /\ shape out = lead ++ [Z.to_nat (size_channels_hidden config); 16])
    /\ Bilinear.forward self x reference =
         Described.bilinear_forward self x reference.
Proof.
  intros Hinit Hpos Hx k.
  destruct (bilinear_forward_split config self x lead reference Hinit Hpos Hx)
    as (y & Hy & Hsy & Hf & Hcat). fold k in Hsy, Hf, Hcat.
  destruct (bilinear_init_inv config self Hinit) as (He & Hc & _ & _).
  destruct (half_channels _ He Hpos) as (Hk & _ & H4 & _). fold k in Hk, H4.
  exists y, (narrow2 y lead (4 * k) 16 (0 * k) k),
    (narrow2 y lead (4 * k) 16 (1 * k) k),
    (narrow2 y lead (4 * k) 16 (2 * k) k),
    (narrow2 y lead (4 * k) 16 (3 * k) k).
  split; [exact Hy|]. split; [now rewrite H4|]. split; [exact H4|].
  do 4 (split; [apply narrow2_is_group|]).
  split; [exact Hf|]. split; [exact Hcat|].
  rewrite Hf. unfold Described.bilinear_forward.
  rewrite Hc, Hy. cbn [bind]. fold k.
  rewrite !channel_group_ok with (lead := lead) (c := 4 * k) (n := 16)
    by (exact Hsy || lia).
  reflexivity.
Qed.

(** C4. Constructing [Bilinear] with an odd [size_channels_intermediate]
    raises the configuration error, before anything else is built.  With
    an even one (and positive channel counts) construction succeeds;
    whatever [forward] then returns has [size_channels_hidden] channels,
    and on an input with [size_channels_hidden] channels it does return,
    with the shape of the input. *)
Theorem bilinear_construction (config : ModelConfig) :
  ((size_channels_intermediate config mod 2 <> 0)%Z ->
   Bilinear.__init__ config =
     Raise (ValueError "Number of hidden channels must be even."))
  /\ ((size_channels_intermediate config mod 2 = 0)%Z ->
      (0 < size_channels_intermediate config)%Z ->
      (0 < size_channels_hidden config)%Z ->
      exists self,
        Bilinear.__init__ config = Ok self
        /\ (forall x reference y,
              Bilinear.forward self x reference = Ok y ->
              channels y = Some (Z.to_nat (size_channels_hidden config)))
        /\ (forall x lead,
              shape x = lead ++ [Z.to_nat (size_channels_hidden config); 16] ->
              exists y,
                Bilinear.forward self x None = Ok y /\ shape y = shape x)).
Proof.
  split; [apply bilinear_init_odd|].
  intros He Hi Hh.
  destruct (linear_init_ok (size_channels_hidden config)
              (size_channels_intermediate config * 2)) as (pb & Hpb); try lia.
  destruct (linear_init_ok (size_channels_intermediate config)
              (size_channels_hidden config)) as (po & Hpo); try lia.
  assert (Hinit : Bilinear.__init__ config =
                    Ok {| Bilinear.config := config;
                          Bilinear.proj_bil := pb;
                          Bilinear.proj_out := po |}).
  { rewrite (bilinear_init_even config He), Hpb, Hpo. reflexivity. }
  eexists. split; [exact Hinit|]. split.
  - intros x reference y H. unfold Bilinear.forward in H.
    cbn [Bilinear.proj_bil Bilinear.proj_out Bilinear.config] in H.
    destruct (EquiLinear_call pb x) as [y0|]; cbn [bind] in H; [|discriminate].
    destruct (split2 y0 _) as [parts|]; cbn [bind] in H; [|discriminate].
    destruct (unpack4 parts) as [[[[lg rg] lj] rj]|];
      cbn [bind] in H; [|discriminate].
    destruct (geometric_product lg rg) as [g|]; cbn [bind] in H; [|discriminate].
    destruct (equi_join lj rj reference) as [j|];
      cbn [bind] in H; [|discriminate].
    destruct (cat2 g j) as [c|]; cbn [bind] in H; [|discriminate].
    exact (linear_call_channels _ _ _ _ _ Hpo H).
  - intros x lead Hx.
    destruct (bilinear_forward_split config _ x lead None Hinit Hi Hx)
      as (y & _ & Hsy & Hf & Hcat).
    set (k := Z.to_nat (size_channels_intermediate config / 2)) in *.
    destruct (product_ok (narrow2 y lead (4 * k) 16 (0 * k) k)
                (narrow2 y lead (4 * k) 16 (1 * k) k) lead k eq_refl eq_refl)
      as (g & Hg & Hsg).
    destruct (join_ok (narrow2 y lead (4 * k) 16 (2 * k) k)
                (narrow2 y lead (4 * k) 16 (3 * k) k) lead k eq_refl eq_refl)
      as (j & Hj & Hsj).
    destruct (Hcat g j Hsg Hsj) as (c & out & Hc & _ & Hout & Hso).
    exists out. rewrite Hf, Hg. cbn [bind]. rewrite Hj. cbn [bind].
    rewrite Hc. cbn [bind]. split; [exact Hout | now rewrite Hx].
Qed.

End BilinearForward.

(* ================================================================== *)
(** ** MLP *)

Section MLPForward.

Context {E : Collaborators}.

Lemma add_same_shape (y x : tensor) :
  shape y = shape x ->
  exists out,
    add y x = Ok out
    /\ shape out = shape x
    /\ wf out
    /\ forall p, p < numel (shape x) -> item out p = (item y p + item x p)%Q.
Proof.
  intros Hs. unfold add, binop. rewrite Hs, broadcast_shapes_same.
  eexists. split; [reflexivity|]. split; [reflexivity|].
  split; [apply wf_tabulate|].
  intros p Hp. rewrite item_tabulate by exact Hp.
  rewrite src_pos_same by (rewrite numel_rev; exact Hp). reflexivity.
Qed.

(** The sequence of rebindings of [x] in [forward] is the branch followed
    by the addition. *)
Lemma mlp_forward_unfold (self : MLP.t) (x : tensor)
    (reference : option tensor) :
  MLP.forward self x reference = Described.mlp_forward self x reference.
Proof.
  unfold MLP.forward, Described.mlp_forward, Described.mlp_branch.
  destruct (EquiRMSNorm_call (MLP.layer_norm self) x) as [n|];
    cbn [bind]; [|reflexivity].
  destruct (Bilinear.forward (MLP.equi_bil self) n reference) as [b|];
    cbn [bind]; [|reflexivity].
  destruct (scaler_gated_gelu b) as [a|]; cbn [bind]; reflexivity.
Qed.

(** C2. [MLP.forward] is the branch normalize, then Bilinear (with the
    reference), then gated activation, then linear projection, applied to
    the input, added to the input itself: when the branch returns a
    tensor of the input's shape, every entry of the output is the entry of
    the branch plus the entry of the untouched input. *)
Theorem mlp_forward_residual (self : MLP.t) (x : tensor)
    (reference : option tensor) :
  MLP.forward self x reference = Described.mlp_forward self x reference
  /\ forall y,
       Described.mlp_branch self reference x = Ok y ->
       shape y = shape x ->
       exists out,
         MLP.forward self x reference = Ok out
         /\ shape out = shape x
         /\ wf out
         /\ forall p, p < numel (shape x) ->
              item out p = (item y p + item x p)%Q.
Proof.
  split; [apply mlp_forward_unfold|].
  intros y Hy Hs. rewrite mlp_forward_unfold. unfold Described.mlp_forward.
  rewrite Hy. cbn [bind]. now apply add_same_shape.
Qed.

(** The residual wiring on its own: a branch that returns zeros leaves the
    input as it is. *)
Lemma mlp_zero_branch_identity (self : MLP.t) (x : tensor)
    (reference : option tensor) (d : scalar_type) :
  wf x ->
  Described.mlp_branch self reference x = Ok (zeros d (shape x)) ->
  exists out, MLP.forward self x reference = Ok out /\ teq out x.
Proof.
  intros Hw Hb.
  rewrite mlp_forward_unfold. unfold Described.mlp_forward.
  rewrite Hb. cbn [bind].
  destruct (add_same_shape (zeros d (shape x)) x eq_refl)
    as (out & Ho & Hs & Hwo & Hit).
  exists out. split; [exact Ho|].
  apply teq_pointwise; [exact Hwo | exact Hw | exact Hs |].
  rewrite Hs. intros p Hp. rewrite (Hit p Hp).
  unfold zeros. rewrite item_tabulate by exact Hp. ring.
Qed.

End MLPForward.

(* ================================================================== *)
(** ** The stand-ins meet the contracts *)

Lemma standin_contracts : Contracts StandIn.collaborators.
Proof.
  constructor; cbn.
  - intros i o _ _. now exists (i, o).
  - intros i o l x lead [= <-] Hx. unfold StandIn.linear_call.
    rewrite Hx, channel_axes_snoc. cbn [fst snd].
    rewrite !Nat.eqb_refl. cbn [andb]. eexists. split; reflexivity.
  - intros i o l x y [= <-]. unfold StandIn.linear_call.
    destruct (channel_axes (shape x)) as [[[lead c] n]|]; [|discriminate].
    destruct ((c =? _) && (n =? 16)); [|discriminate].
    intros [= <-]. cbn [fst snd]. now apply channels_snoc with (lead := lead) (n := 16).
  - intros a b lead c Ha Hb. unfold StandIn.entrywise.
    rewrite Ha, Hb, shape_eqb_refl. eexists. split; reflexivity.
  - intros a b lead c Ha Hb. unfold StandIn.entrywise.
    rewrite Ha, Hb, shape_eqb_refl. eexists. split; reflexivity.
Qed.

Lemma bilinear_forward_steps_witness :
  Bilinear.forward sample_bilinear sample_hidden None =
    Described.bilinear_forward sample_bilinear sample_hidden None.
Proof.
  destruct (bilinear_forward_steps standin_contracts small_config
              sample_bilinear sample_hidden [1] None
              eq_refl eq_refl eq_refl)
    as (y & lg & rg & lj & rj & _ & _ & _ & _ & _ & _ & _ & _ & _ & H).
  exact H.
Defined.

Lemma bilinear_construction_witness :
  @Bilinear.__init__ StandIn.collaborators odd_config =
    Raise (ValueError "Number of hidden channels must be even.")
  /\ exists self,
       @Bilinear.__init__ StandIn.collaborators default_config = Ok self
       /\ (forall x reference y,
             Bilinear.forward self x reference = Ok y ->
             channels y = Some 32)
       /\ (forall x lead,
             shape x = lead ++ [32; 16] ->
             exists y, Bilinear.forward self x None = Ok y /\ shape y = shape x).
Proof.
  split.
  - apply (proj1 (bilinear_construction standin_contracts odd_config)).
    discriminate.
  - apply (proj2 (bilinear_construction standin_contracts default_config));
      reflexivity.
Defined.

Lemma mlp_forward_residual_witness :
  exists out,
    MLP.forward sample_mlp sample_hidden None = Ok out
    /\ shape out = shape sample_hidden.
Proof.
  edestruct (proj2 (mlp_forward_residual sample_mlp sample_hidden None))
    as (out & Ho & Hs & _).
  - lazy. reflexivity.
  - reflexivity.
  - exists out. split; assumption.
Defined.

(* ================================================================== *)
(** ** Scalar and Pseudoscalar *)

Section ScalarFacts.

Lemma shape_eqb_false (s1 s2 : list nat) : s1 <> s2 -> shape_eqb s1 s2 = false.
Proof.
  intros H. unfold shape_eqb.
  destruct (list_eq_dec Nat.eq_dec s1 s2); [contradiction | reflexivity].
Qed.

Lemma shape_eqb_true (s1 s2 : list nat) : shape_eqb s1 s2 = true -> s1 = s2.
Proof.
  unfold shape_eqb.
  destruct (list_eq_dec Nat.eq_dec s1 s2); [trivial | discriminate].
Qed.

(** The only shape ending in an axis that is the shape of a 1-dimensional
    empty tensor. *)
Lemma snoc_is_empty1 (lead : list nat) (n : nat) :
  lead ++ [n] = [0] -> lead = [] /\ n = 0.
Proof.
  intros H. change [0] with ([] ++ [0]) in H.
  apply app_inj_tail in H. exact H.
Qed.

Lemma cat_last_snoc (a b : tensor) (lead : list nat) (na nb : nat) :
  shape a = lead ++ [na] -> shape b = lead ++ [nb] ->
  shape a <> [0] -> shape b <> [0] ->
  cat_last a b =
    Ok (tabulate (promote (dtype a) (dtype b)) (lead ++ [na + nb])
          (fun p =>
             if p mod (na + nb) <? na
             then item a ((p / (na + nb)) * na + p mod (na + nb))
             else item b ((p / (na + nb)) * nb + (p mod (na + nb) - na)))).
Proof.
  intros Ha Hb Na Nb. unfold cat_last. cbv zeta.
  rewrite (shape_eqb_false _ _ Na), (shape_eqb_false _ _ Nb).
  rewrite Ha, Hb, !last_axis_snoc, shape_eqb_refl. reflexivity.
Qed.

Lemma promote_same (d : scalar_type) : promote d d = d.
Proof. now destruct d. Qed.

End ScalarFacts.

(** X1. [Scalar.encode] puts 15 zeros behind the last axis it is given,
    whatever its size [n]: the result has a last axis of size [n + 15],
    the given entries first.  It is a 16-component multivector with the
    scalar at component 0 exactly when [n = 1]. *)
Theorem scalar_encode_layout (scalars : tensor) (lead : list nat) (n : nat) :
  shape scalars = lead ++ [n] ->
  exists mvs,
    Scalar.encode scalars = Ok mvs
    /\ shape mvs = lead ++ [n + 15]
    /\ wf mvs
    /\ forall r j, r < numel lead -> j < n + 15 ->
         item mvs (r * (n + 15) + j) =
           if j <? n then item scalars (r * n + j) else 0%Q.
Proof.
  intros Hs. unfold Scalar.encode. rewrite Hs, removelast_last.
  destruct (list_eq_dec Nat.eq_dec (lead ++ [n]) [0]) as [E0|N0].
  - destruct (snoc_is_empty1 lead n E0) as [-> ->].
    unfold cat_last. cbv zeta. rewrite Hs. cbn [app]. rewrite shape_eqb_refl.
    eexists. split; [reflexivity|]. split; [reflexivity|].
    split; [apply wf_tabulate|].
    intros r j Hr Hj. unfold zeros. simpl in Hr, Hj.
    rewrite !item_tabulate by (simpl; lia).
    replace (j <? 0) with false by (symmetry; apply Nat.ltb_ge; lia).
    reflexivity.
  - rewrite cat_last_snoc with (lead := lead) (na := n) (nb := 15);
      [| exact Hs | reflexivity | now rewrite Hs
       | cbn [shape zeros tabulate]; intros H;
         apply snoc_is_empty1 in H; lia ].
    eexists. split; [reflexivity|]. split; [reflexivity|].
    split; [apply wf_tabulate|].
    intros r j Hr Hj. entry.
    destruct (j <? n); [reflexivity|]. unfold zeros.
    assert (j - n < 15) by lia. entry. reflexivity.
Qed.

Lemma scalar_encode_layout_witness :
  exists mvs,
    Scalar.encode sample_scalars = Ok mvs /\ shape mvs = [3] ++ [1 + 15].
Proof.
  destruct (scalar_encode_layout sample_scalars [3] 1 eq_refl)
    as (mvs & He & Hs & _).
  exists mvs. split; assumption.
Defined.

Section ScalarRoundTrip.

Lemma snoc1_not_empty1 (lead : list nat) : lead ++ [1] <> [0].
Proof. intros H. apply snoc_is_empty1 in H. lia. Qed.

Lemma snoc15_not_empty1 (lead : list nat) : lead ++ [15] <> [0].
Proof. intros H. apply snoc_is_empty1 in H. lia. Qed.

Lemma scalar_encode_eq1 (s : tensor) (lead : list nat) :
  shape s = lead ++ [1] ->
  Scalar.encode s =
    Ok (tabulate (dtype s) (lead ++ [16])
          (fun p =>
             if p mod 16 <? 1
             then item s ((p / 16) * 1 + p mod 16)
             else item (zeros (dtype s) (lead ++ [15]))
                    ((p / 16) * 15 + (p mod 16 - 1)))).
Proof.
  intros Hs. unfold Scalar.encode. rewrite Hs, removelast_last.
  rewrite cat_last_snoc with (lead := lead) (na := 1) (nb := 15);
    [| exact Hs | reflexivity
     | rewrite Hs; apply snoc1_not_empty1
     | apply snoc15_not_empty1 ].
  cbn [dtype zeros tabulate]. rewrite promote_same. reflexivity.
Qed.

Lemma pseudoscalar_encode_eq1 (s : tensor) (lead : list nat) :
  shape s = lead ++ [1] ->
  Pseudoscalar.encode s =
    Ok (tabulate (dtype s) (lead ++ [16])
          (fun p =>
             if p mod 16 <? 15
             then item (zeros (dtype s) (lead ++ [15]))
                    ((p / 16) * 15 + p mod 16)
             else item s ((p / 16) * 1 + (p mod 16 - 15)))).
Proof.
  intros Hs. unfold Pseudoscalar.encode. rewrite Hs, removelast_last.
  rewrite cat_last_snoc with (lead := lead) (na := 15) (nb := 1);
    [| reflexivity | exact Hs
     | apply snoc15_not_empty1
     | rewrite Hs; apply snoc1_not_empty1 ].
  cbn [dtype zeros tabulate]. rewrite promote_same. reflexivity.
Qed.

End ScalarRoundTrip.

(** X2. For every tensor [s] of scalars with a last axis of size 1,
    [Scalar.decode (Scalar.encode s)] returns a tensor equal to [s]. *)
Theorem scalar_roundtrip (s : tensor) (lead : list nat) :
  shape s = lead ++ [1] -> wf s ->
  exists out,
    (mvs <- Scalar.encode s ;; Scalar.decode mvs) = Ok out /\ teq out s.
Proof.
  intros Hs Hw. rewrite (scalar_encode_eq1 s lead Hs). cbn [bind].
  unfold Scalar.decode.
  rewrite index_last_snoc with (lead := lead) (n := 16) by (reflexivity || lia).
  eexists. split; [reflexivity|].
  apply teq_pointwise; [apply wf_tabulate | exact Hw | now rewrite Hs |].
  cbn [shape tabulate]. intros p Hp. rewrite item_tabulate by exact Hp.
  rewrite numel_snoc in Hp. entry. cbn [Nat.ltb Nat.leb].
  replace (p * 1 + 0) with p by lia. reflexivity.
Qed.

Lemma scalar_roundtrip_witness :
  exists out,
    (mvs <- Scalar.encode sample_scalars ;; Scalar.decode mvs) = Ok out
    /\ teq out sample_scalars.
Proof. apply (scalar_roundtrip sample_scalars [3]); reflexivity. Defined.

(** X3. [Pseudoscalar.encode] puts 15 zeros in front of the last axis it is
    given, whatever its size [n]: the result has a last axis of size
    [15 + n], the given entries from component 15 on. *)
Theorem pseudoscalar_encode_layout (ps : tensor) (lead : list nat) (n : nat) :
  shape ps = lead ++ [n] ->
  exists mvs,
    Pseudoscalar.encode ps = Ok mvs
    /\ shape mvs = lead ++ [15 + n]
    /\ wf mvs
    /\ forall r j, r < numel lead -> j < 15 + n ->
         item mvs (r * (15 + n) + j) =
           if j <? 15 then 0%Q else item ps (r * n + (j - 15)).
Proof.
  intros Hs. unfold Pseudoscalar.encode. rewrite Hs, removelast_last.
  destruct (list_eq_dec Nat.eq_dec (lead ++ [n]) [0]) as [E0|N0].
  - destruct (snoc_is_empty1 lead n E0) as [-> ->].
    unfold cat_last. cbv zeta.
    change (shape (zeros (dtype ps) ([] ++ [15]))) with [15].
    rewrite (shape_eqb_false [15] [0]) by discriminate.
    rewrite Hs. cbn [app]. rewrite shape_eqb_refl.
    eexists. split; [reflexivity|]. split; [reflexivity|].
    split; [apply wf_tabulate|].
    intros r j Hr Hj. simpl in Hr, Hj. unfold zeros.
    rewrite !item_tabulate by (simpl; lia).
    replace (j <? 15) with true by (symmetry; apply Nat.ltb_lt; lia).
    reflexivity.
  - rewrite cat_last_snoc with (lead := lead) (na := 15) (nb := n);
      [| reflexivity | exact Hs | apply snoc15_not_empty1 | now rewrite Hs ].
    eexists. split; [reflexivity|]. split; [reflexivity|].
    split; [apply wf_tabulate|].
    intros r j Hr Hj. entry.
    destruct (j <? 15) eqn:E; [|reflexivity].
    apply Nat.ltb_lt in E. unfold zeros. entry. reflexivity.
Qed.

Lemma pseudoscalar_encode_layout_witness :
  exists mvs,
    Pseudoscalar.encode sample_scalars = Ok mvs /\ shape mvs = [3] ++ [15 + 1].
Proof.
  destruct (pseudoscalar_encode_layout sample_scalars [3] 1 eq_refl)
    as (mvs & He & Hs & _).
  exists mvs. split; assumption.
Defined.

(** X4. For every tensor [p] of pseudoscalars with a last axis of size 1,
    [Pseudoscalar.decode (Pseudoscalar.encode p)] returns a tensor equal
    to [p]. *)
Theorem pseudoscalar_roundtrip (p : tensor) (lead : list nat) :
  shape p = lead ++ [1] -> wf p ->
  exists out,
    (mvs <- Pseudoscalar.encode p ;; Pseudoscalar.decode mvs) = Ok out
    /\ teq out p.
Proof.
  intros Hs Hw. rewrite (pseudoscalar_encode_eq1 p lead Hs). cbn [bind].
  unfold Pseudoscalar.decode.
  rewrite index_last_snoc with (lead := lead) (n := 16) by (reflexivity || lia).
  eexists. split; [reflexivity|].
  apply teq_pointwise; [apply wf_tabulate | exact Hw | now rewrite Hs |].
  cbn [shape tabulate]. intros q Hq. rewrite item_tabulate by exact Hq.
  rewrite numel_snoc in Hq. entry. cbn [Nat.ltb Nat.leb Nat.sub].
  replace (q * 1 + 0) with q by lia. reflexivity.
Qed.

Lemma pseudoscalar_roundtrip_witness :
  exists out,
    (mvs <- Pseudoscalar.encode sample_scalars ;; Pseudoscalar.decode mvs)
      = Ok out
    /\ teq out sample_scalars.
Proof. apply (pseudoscalar_roundtrip sample_scalars [3]); reflexivity. Defined.

(** X5. The two codecs do not see each other: decoding an encoded scalar
    as a pseudoscalar, or an encoded pseudoscalar as a scalar, gives
    zeros. *)
Theorem scalar_pseudoscalar_disjoint (s : tensor) (lead : list nat) :
  shape s = lead ++ [1] ->
  (mvs <- Scalar.encode s ;; Pseudoscalar.decode mvs)
    = Ok (zeros (dtype s) (lead ++ [1]))
  /\ (mvs <- Pseudoscalar.encode s ;; Scalar.decode mvs)
       = Ok (zeros (dtype s) (lead ++ [1])).
Proof.
  intros Hs. split.
  - rewrite (scalar_encode_eq1 s lead Hs). cbn [bind].
    unfold Pseudoscalar.decode.
    rewrite index_last_snoc with (lead := lead) (n := 16)
      by (reflexivity || lia).
    f_equal. apply tabulate_ext. intros r Hr. rewrite numel_snoc in Hr.
    entry. cbn [Nat.ltb Nat.leb Nat.sub]. unfold zeros. entry. reflexivity.
  - rewrite (pseudoscalar_encode_eq1 s lead Hs). cbn [bind].
    unfold Scalar.decode.
    rewrite index_last_snoc with (lead := lead) (n := 16)
      by (reflexivity || lia).
    f_equal. apply tabulate_ext. intros r Hr. rewrite numel_snoc in Hr.
    entry. cbn [Nat.ltb Nat.leb]. unfold zeros. entry. reflexivity.
Qed.

Lemma scalar_pseudoscalar_disjoint_witness :
  (mvs <- Scalar.encode sample_scalars ;; Pseudoscalar.decode mvs)
    = Ok (zeros (dtype sample_scalars) ([3] ++ [1]))
  /\ (mvs <- Pseudoscalar.encode sample_scalars ;; Scalar.decode mvs)
       = Ok (zeros (dtype sample_scalars) ([3] ++ [1])).
Proof. apply (scalar_pseudoscalar_disjoint sample_scalars [3]); reflexivity. Defined.

(* ================================================================== *)
(** ** Inputs without a last axis, and last axes that are too short *)

(** X6. No encoder or decoder accepts a 0-dimensional tensor: the
    concatenating encoders raise a runtime error, every other function an
    index error. *)
Theorem codec_0dim (t : tensor) (divide : bool) (threshold : Q) :
  shape t = [] ->
  Scalar.encode t = Raise RuntimeError
  /\ Pseudoscalar.encode t = Raise RuntimeError
  /\ Scalar.decode t = Raise IndexError
  /\ Pseudoscalar.decode t = Raise IndexError
  /\ Point.encode t = Raise IndexError
  /\ Translation.encode t = Raise IndexError
  /\ Translation.decode t divide threshold = Raise IndexError.
Proof.
  intros Hs.
  unfold Scalar.encode, Pseudoscalar.encode, Scalar.decode,
    Pseudoscalar.decode, Point.encode, Translation.encode,
    Translation.decode, cat_last, index_last, select_last, slice_all,
    slice_last.
  rewrite Hs. repeat split; reflexivity.
Qed.

Lemma codec_0dim_witness :
  Scalar.encode sample_0dim = Raise RuntimeError
  /\ Pseudoscalar.encode sample_0dim = Raise RuntimeError
  /\ Scalar.decode sample_0dim = Raise IndexError
  /\ Pseudoscalar.decode sample_0dim = Raise IndexError
  /\ Point.encode sample_0dim = Raise IndexError
  /\ Translation.encode sample_0dim = Raise IndexError
  /\ Translation.decode sample_0dim true Translation.default_threshold
       = Raise IndexError.
Proof.
  apply (codec_0dim sample_0dim true Translation.default_threshold).
  reflexivity.
Defined.

(** X7. The decoders check the last axis only by indexing it.
    [Scalar.decode] returns component 0 of any tensor whose last axis is
    not empty and raises an index error on an empty last axis;
    [Pseudoscalar.decode] returns component 15 of any tensor whose last
    axis has at least 16 components.  On a shorter last axis it raises an
    index error if that axis is empty or the tensor has entries along its
    leading axes; on an empty batch with a last axis that is not empty
    nothing is gathered and the result is an empty tensor. *)
Theorem decode_bounds (mvs : tensor) (lead : list nat) (n : nat) :
  shape mvs = lead ++ [n] ->
  (0 < n ->
     Scalar.decode mvs =
       Ok (tabulate (dtype mvs) (lead ++ [1]) (fun r => item mvs (r * n + 0))))
  /\ (n = 0 -> Scalar.decode mvs = Raise IndexError)
  /\ (15 < n ->
        Pseudoscalar.decode mvs =
          Ok (tabulate (dtype mvs) (lead ++ [1])
                (fun r => item mvs (r * n + 15))))
  /\ (n <= 15 -> n = 0 \/ numel lead <> 0 ->
        Pseudoscalar.decode mvs = Raise IndexError)
  /\ (0 < n -> numel lead = 0 ->
        exists p,
          Pseudoscalar.decode mvs = Ok p
          /\ dtype p = dtype mvs /\ shape p = lead ++ [1] /\ data p = []).
Proof.
  intros Hs. unfold Scalar.decode, Pseudoscalar.decode.
  split; [|split; [|split; [|split]]].
  - intros Hn. apply (index_last_snoc mvs lead n Hs 0 Hn).
  - intros Hn. unfold index_last. rewrite Hs, last_axis_snoc. subst n.
    reflexivity.
  - intros Hn. apply (index_last_snoc mvs lead n Hs 15). lia.
  - intros Hn Hl. unfold index_last. rewrite Hs, last_axis_snoc.
    destruct (n =? 0) eqn:E0; [reflexivity|].
    apply Nat.eqb_neq in E0. destruct Hl as [Hl|Hl]; [contradiction|].
    replace (15 <? n) with false by (symmetry; apply Nat.ltb_ge; lia).
    apply Nat.eqb_neq in Hl. rewrite Hl. reflexivity.
  - intros Hn Hl. unfold index_last. rewrite Hs, last_axis_snoc.
    replace (n =? 0) with false by (symmetry; apply Nat.eqb_neq; lia).
    replace (numel lead =? 0) with true by (symmetry; now apply Nat.eqb_eq).
    rewrite orb_true_r.
    eexists. split; [reflexivity|]. split; [reflexivity|].
    split; [reflexivity|].
    unfold tabulate. cbn [data]. rewrite numel_snoc, Hl. reflexivity.
Qed.

Lemma decode_bounds_witness :
  Scalar.decode sample_delta =
    Ok (tabulate (dtype sample_delta) ([2] ++ [1])
          (fun r => item sample_delta (r * 3 + 0)))
  /\ Pseudoscalar.decode sample_delta = Raise IndexError
  /\ exists p,
       Pseudoscalar.decode (Tensor Floating [0; 3] []) = Ok p
       /\ shape p = [0] ++ [1] /\ data p = [].
Proof.
  destruct (decode_bounds sample_delta [2] 3 eq_refl) as (H1 & _ & _ & H4 & _).
  split; [apply H1; lia|].
  split; [apply H4; [lia | right; discriminate]|].
  destruct (decode_bounds (Tensor Floating [0; 3] []) [0] 3 eq_refl)
    as (_ & _ & _ & _ & H5).
  destruct H5 as (p & Hp & _ & Hsp & Hdp); [lia | reflexivity|].
  exists p. repeat split; assumption.
Defined.

(* ================================================================== *)
(** ** Assigning a value whose last axis does not match *)

Section CopyFacts.

Lemma strip1_split (s : list nat) :
  exists pre, s = pre ++ strip1 s /\ Forall (eq 1) pre.
Proof.
  induction s as [|d s (pre & E & F)].
  - exists []. split; [reflexivity | constructor].
  - destruct d as [|[|d]].
    + exists []. split; [reflexivity | constructor].
    + exists (1 :: pre). cbn [strip1 app]. split; [now rewrite <- E|].
      constructor; [reflexivity | exact F].
    + exists []. split; [reflexivity | constructor].
Qed.

Lemma numel_ones (pre : list nat) : Forall (eq 1) pre -> numel pre = 1.
Proof.
  induction 1 as [|d pre <- _ IH]; simpl; [reflexivity | lia].
Qed.

Lemma expandable_prefix (r extra : list nat) : expandable (r ++ extra) r = true.
Proof.
  induction r as [|d r IH]; simpl; [now destruct extra|].
  now rewrite Nat.eqb_refl, IH.
Qed.

Lemma src_pos_prefix (r extra : list nat) (q : nat) :
  q < numel r -> src_pos (r ++ extra) r q = q.
Proof.
  revert q. induction r as [|d r IH]; intros q Hq; simpl in *;
    [destruct extra; simpl; lia|].
  assert (Hd : d <> 0) by (intros ->; simpl in Hq; lia).
  rewrite IH by (apply Nat.Div0.div_lt_upper_bound; lia).
  pose proof (Nat.div_mod q d Hd) as E.
  destruct (d =? 1) eqn:E1.
  - apply Nat.eqb_eq in E1. subst d. rewrite Nat.div_1_r. lia.
  - lia.
Qed.

(** What is left of a shape ending in [n] once its leading ones are
    dropped: nothing (then [n] is 1 too), or a shape that still ends in
    [n]. *)
Lemma strip1_snoc (lead : list nat) (n : nat) :
  (strip1 (lead ++ [n]) = [] /\ n = 1 /\ numel lead = 1)
  \/ exists pre rest,
       strip1 (lead ++ [n]) = rest ++ [n]
       /\ lead = pre ++ rest /\ numel pre = 1.
Proof.
  destruct (strip1_split (lead ++ [n])) as (pre & E & F).
  destruct (strip1 (lead ++ [n])) as [|x xs].
  - left. rewrite app_nil_r in E. subst pre.
    apply Forall_app in F as [Fl Fn]. inversion Fn; subst.
    repeat split. now apply numel_ones.
  - right.
    destruct (@exists_last _ (x :: xs) ltac:(discriminate)) as (rest & m & Em).
    rewrite Em in *. exists pre, rest.
    rewrite app_assoc in E. apply app_inj_tail in E as [El ->].
    repeat split; [exact El | now apply numel_ones].
Qed.

(** A value whose last axis has size one is stretched along the last axis
    of the destination. *)
Lemma copy_to_last1 (d : scalar_type) (v : tensor) (lead : list nat)
    (w : nat) :
  shape v = lead ++ [1] ->
  exists g,
    copy_to d (lead ++ [w]) v = Ok g
    /\ forall r j, r < numel lead -> j < w ->
         g (r * w + j) = convert (dtype v) d (item v r).
Proof.
  intros Hv. unfold copy_to. rewrite Hv.
  destruct (shape_eqb (lead ++ [w]) (lead ++ [1])) eqn:Eq.
  - apply shape_eqb_true in Eq. apply app_inj_tail in Eq as [_ ->].
    eexists. split; [reflexivity|]. intros r j Hr Hj.
    cbv beta. do 2 f_equal. lia.
  - rewrite rev_app_distr. cbn [rev app].
    destruct (strip1_snoc lead 1) as [(E & _ & Hl)|(pre & rest & E & -> & Hp)];
      rewrite E.
    + cbn [rev expandable]. eexists. split; [reflexivity|].
      intros r j Hr Hj. cbn [src_pos]. cbv beta. do 2 f_equal. lia.
    + rewrite !rev_app_distr. cbn [rev app expandable].
      rewrite Nat.eqb_refl, orb_true_r, expandable_prefix. cbn [andb].
      eexists. split; [reflexivity|].
      intros r j Hr Hj. cbn [src_pos Nat.eqb].
      rewrite numel_app, Hp in Hr.
      rewrite row_div by exact Hj.
      rewrite src_pos_prefix by (rewrite numel_rev; lia).
      cbv beta. do 2 f_equal. lia.
Qed.

(** A value whose last axis is neither that of the destination nor one
    cannot be assigned. *)
Lemma copy_to_mismatch (d : scalar_type) (v : tensor) (lead : list nat)
    (w n : nat) :
  shape v = lead ++ [n] -> n <> w -> n <> 1 ->
  copy_to d (lead ++ [w]) v = Raise RuntimeError.
Proof.
  intros Hv Hw H1. unfold copy_to. rewrite Hv.
  rewrite shape_eqb_false
    by (intros E; apply app_inj_tail in E as [_ E]; congruence).
  rewrite rev_app_distr. cbn [rev app].
  destruct (strip1_snoc lead n) as [(_ & E & _)|(pre & rest & E & _ & _)];
    [contradiction|].
  rewrite E, rev_app_distr. cbn [rev app expandable].
  replace (n =? w) with false by (symmetry; now apply Nat.eqb_neq).
  replace (n =? 1) with false by (symmetry; now apply Nat.eqb_neq).
  reflexivity.
Qed.

End CopyFacts.

Section SliceAssignFacts.

Lemma set_last_slice_copy (t v : tensor) (lead : list nat) (n a b : nat) :
  shape t = lead ++ [n] -> a <= b -> b <= n ->
  set_last_slice t a b v =
    (g <- copy_to (dtype t) (lead ++ [b - a]) v ;;
     Ok (tabulate (dtype t) (lead ++ [n])
           (fun p =>
              if (a <=? p mod n) && (p mod n <? b)
              then g ((p / n) * (b - a) + (p mod n - a))
              else item t p))).
Proof.
  intros Hs Hab Hb. unfold set_last_slice. rewrite Hs, last_axis_snoc.
  rewrite (Nat.min_l b n) by exact Hb. rewrite (Nat.min_l a n) by lia.
  reflexivity.
Qed.

Lemma set_last_copy (t v : tensor) (lead : list nat) (n k : nat) :
  shape t = lead ++ [n] -> k < n ->
  set_last t k v =
    (g <- copy_to (dtype t) lead v ;;
     Ok (tabulate (dtype t) (lead ++ [n])
           (fun p => if p mod n =? k then g (p / n) else item t p))).
Proof.
  intros Hs Hk. unfold set_last. rewrite Hs, last_axis_snoc.
  apply Nat.ltb_lt in Hk. now rewrite Hk.
Qed.

End SliceAssignFacts.

(* ================================================================== *)
(** ** What the encoders accept *)

(** X8. [Translation.encode] does not check that its argument has three
    components.  A last axis of size 1 is broadcast: the single entry,
    times -0.5 and converted to the dtype of the argument (truncated toward
    zero for an integral argument), goes to each of the components 5, 6 and
    7.  A last axis of any size other than 3 and 1 raises a runtime
    error. *)
Theorem translation_encode_last_axis (delta : tensor) (lead : list nat)
    (n : nat) :
  shape delta = lead ++ [n] ->
  (n = 1 ->
     exists mvs,
       Translation.encode delta = Ok mvs
       /\ dtype mvs = dtype delta
       /\ shape mvs = lead ++ [16]
       /\ forall r j, r < numel lead -> j < 16 ->
            item mvs (r * 16 + j) =
              if j =? 0 then 1%Q
              else if (5 <=? j) && (j <? 8)
                   then match dtype delta with
                        | Floating => (- (1 # 2) * item delta r)%Q
                        | Integral => trunc (- (1 # 2) * item delta r)%Q
                        end
                   else 0%Q)
  /\ (n <> 3 -> n <> 1 -> Translation.encode delta = Raise RuntimeError).
Proof.
  intros Hs.
  assert (E : Translation.encode delta =
              (g <- copy_to (dtype delta) (lead ++ [3])
                      (scale (- (1 # 2))%Q delta) ;;
               Ok (tabulate (dtype delta) (lead ++ [16])
                     (fun p =>
                        if (5 <=? p mod 16) && (p mod 16 <? 8)
                        then g ((p / 16) * 3 + (p mod 16 - 5))
                        else item
                               (tabulate (dtype delta) (lead ++ [16])
                                  (fun q => if q mod 16 =? 0
                                            then convert Floating (dtype delta) 1
                                            else item (zeros (dtype delta)
                                                         (lead ++ [16])) q))
                               p)))).
  { unfold Translation.encode. rewrite Hs, removelast_last.
    rewrite set_last_scalar_snoc with (lead := lead) (n := 16)
      by (reflexivity || lia).
    cbn [bind]. rewrite slice_all_snoc with (1 := Hs). cbn [bind].
    rewrite set_last_slice_copy with (lead := lead) (n := 16)
      by (reflexivity || lia).
    change (8 - 5) with 3. cbn [dtype zeros tabulate].
    destruct (copy_to (dtype delta) _ _); reflexivity. }
  rewrite E. clear E. split.
  - intros ->.
    destruct (copy_to_last1 (dtype delta) (scale (- (1 # 2))%Q delta) lead 3 Hs)
      as (g & Hg & Hgv).
    rewrite Hg. cbn [bind].
    eexists. split; [reflexivity|]. split; [reflexivity|].
    split; [reflexivity|].
    intros r j Hr Hj. entry.
    destruct ((5 <=? j) && (j <? 8)) eqn:B.
    + apply andb_prop in B as [B1 B2].
      apply Nat.leb_le in B1. apply Nat.ltb_lt in B2.
      replace (j =? 0) with false by (symmetry; apply Nat.eqb_neq; lia).
      rewrite Hgv by lia. unfold scale. rewrite Hs.
      rewrite item_tabulate by (rewrite numel_snoc; lia).
      cbn [dtype tabulate]. now destruct (dtype delta).
    + entry. destruct (j =? 0); [reflexivity|].
      unfold zeros. entry. reflexivity.
  - intros N3 N1.
    rewrite (copy_to_mismatch (dtype delta) (scale (- (1 # 2))%Q delta)
               lead 3 n Hs N3 N1).
    reflexivity.
Qed.

Lemma translation_encode_last_axis_witness :
  (exists mvs,
     Translation.encode sample_scalars = Ok mvs
     /\ dtype mvs = dtype sample_scalars /\ shape mvs = [3] ++ [16])
  /\ Translation.encode (Tensor Floating [2; 2] [1; 2; 3; 4]%Q)
     = Raise RuntimeError.
Proof.
  split.
  - destruct (proj1 (translation_encode_last_axis sample_scalars [3] 1 eq_refl)
                eq_refl) as (mvs & He & Hd & Hs & _).
    exists mvs. repeat split; assumption.
  - apply (proj2 (translation_encode_last_axis
                    (Tensor Floating [2; 2] [1; 2; 3; 4]%Q) [2] 2 eq_refl));
      discriminate.
Defined.

(** X9. [Point.encode] reads the first three components of the last axis
    and only those: a longer last axis is accepted and its other
    components are ignored; a last axis shorter than three raises an
    index error. *)
Theorem point_encode_last_axis (points : tensor) (lead : list nat) (n : nat) :
  shape points = lead ++ [n] ->
  (3 <= n ->
     exists mvs,
       Point.encode points = Ok mvs
       /\ shape mvs = lead ++ [16]
       /\ forall r j, r < numel lead -> j < 16 ->
            item mvs (r * 16 + j) =
              if j =? 14 then 1%Q
              else if j =? 13 then (- item points (r * n + 0))%Q
              else if j =? 12 then item points (r * n + 1)
              else if j =? 11 then (- item points (r * n + 2))%Q
              else 0%Q)
  /\ (n < 3 -> Point.encode points = Raise IndexError).
Proof.
  intros Hs. split.
  - intros Hn. unfold Point.encode. rewrite Hs, removelast_last.
    rewrite set_last_scalar_snoc with (lead := lead) (n := 16)
      by (reflexivity || lia).
    cbn [bind].
    rewrite !select_last_snoc with (lead := lead) (n := n) by (exact Hs || lia).
    cbn [bind].
    rewrite set_last_same with (lead := lead) (n := 16) by (reflexivity || lia).
    cbn [bind].
    rewrite set_last_same with (lead := lead) (n := 16) by (reflexivity || lia).
    cbn [bind].
    rewrite set_last_same with (lead := lead) (n := 16) by (reflexivity || lia).
    cbn [bind].
    eexists. split; [reflexivity|]. split; [reflexivity|].
    intros r j Hr Hj. unfold neg, zeros. cbn [shape tabulate].
    entry.
    destruct (j =? 11) eqn:E11.
    { apply Nat.eqb_eq in E11. subst j. entry. reflexivity. }
    entry. destruct (j =? 12) eqn:E12.
    { apply Nat.eqb_eq in E12. subst j. reflexivity. }
    entry. destruct (j =? 13) eqn:E13.
    { apply Nat.eqb_eq in E13. subst j. entry. reflexivity. }
    entry. destruct (j =? 14) eqn:E14.
    { apply Nat.eqb_eq in E14. subst j. reflexivity. }
    entry. reflexivity.
  - intros Hn. unfold Point.encode. rewrite Hs, removelast_last.
    rewrite set_last_scalar_snoc with (lead := lead) (n := 16)
      by (reflexivity || lia).
    cbn [bind]. unfold select_last. rewrite Hs, last_axis_snoc.
    destruct n as [|[|[|n]]]; [| | |lia]; cbn [Nat.ltb Nat.leb bind].
    + reflexivity.
    + rewrite set_last_same with (lead := lead) (n := 16)
        by (reflexivity || lia).
      reflexivity.
    + rewrite set_last_same with (lead := lead) (n := 16)
        by (reflexivity || lia).
      cbn [bind].
      rewrite set_last_same with (lead := lead) (n := 16)
        by (reflexivity || lia).
      reflexivity.
Qed.

Lemma point_encode_last_axis_witness :
  (exists mvs,
     Point.encode sample_homogeneous = Ok mvs /\ shape mvs = [1] ++ [16])
  /\ Point.encode sample_scalars = Raise IndexError.
Proof.
  split.
  - destruct (proj1 (point_encode_last_axis sample_homogeneous [1] 4 eq_refl))
      as (mvs & He & Hs & _); [lia|].
    exists mvs. split; assumption.
  - apply (proj2 (point_encode_last_axis sample_scalars [3] 1 eq_refl)). lia.
Defined.

(* ================================================================== *)
(** ** More on Translation.decode *)

Section DecodeFacts.

Lemma slice_last_any (t : tensor) (lead : list nat) (n a b : nat) :
  shape t = lead ++ [n] ->
  exists s, slice_last t a b = Ok s
            /\ shape s = lead ++ [Nat.min b n - Nat.min a n].
Proof.
  intros Hs. unfold slice_last. rewrite Hs, last_axis_snoc.
  eexists. split; reflexivity.
Qed.

Lemma div_last1_shape (a b : tensor) (lead : list nat) (w : nat) :
  shape a = lead ++ [w] -> shape b = lead ++ [1] ->
  exists out, div a b = Ok out /\ shape out = lead ++ [w].
Proof.
  intros Ha Hb. unfold div, binop.
  rewrite Ha, Hb, broadcast_shapes_last1.
  eexists. split; reflexivity.
Qed.

End DecodeFacts.

(** X10. [Translation.decode] never rejects a tensor for its number of
    components.  On any non-empty last axis of size [n] it returns, with or
    without the division, and its result has the components 5, 6, 7 that
    exist: [min 8 n - min 5 n] of them, so none at all for [n <= 5]. *)
Theorem translation_decode_any_axis (mvs : tensor) (lead : list nat)
    (n : nat) (divide : bool) (threshold : Q) :
  shape mvs = lead ++ [n] -> 0 < n ->
  exists out,
    Translation.decode mvs divide threshold = Ok out
    /\ shape out = lead ++ [Nat.min 8 n - Nat.min 5 n].
Proof.
  intros Hs Hn. unfold Translation.decode.
  destruct (slice_last_any mvs lead n 5 8 Hs) as (s & Hsl & Hss).
  rewrite Hsl. cbn [bind]. destruct divide.
  - rewrite index_last_snoc with (lead := lead) (n := n) by (exact Hs || lia).
    cbn [bind].
    apply div_last1_shape; [cbn [shape scale tabulate]; exact Hss | reflexivity].
  - eexists. split; [reflexivity | cbn [shape scale tabulate]; exact Hss].
Qed.

Lemma translation_decode_any_axis_witness :
  exists out,
    Translation.decode sample_delta true Translation.default_threshold = Ok out
    /\ shape out = [2] ++ [Nat.min 8 3 - Nat.min 5 3].
Proof.
  apply (translation_decode_any_axis sample_delta [2] 3 true
           Translation.default_threshold); [reflexivity | lia].
Defined.

(** X11. For a floating-point translation the round trip with the
    division holds for every threshold below 1, not only for the default.
    From threshold 1 on the scalar component 1 of the encoding is clamped
    and the result is the translation divided by the threshold. *)
Theorem translation_roundtrip_threshold (t : tensor) (lead : list nat)
    (threshold : Q) :
  dtype t = Floating -> shape t = lead ++ [3] -> wf t ->
  exists out,
    (mvs <- Translation.encode t ;; Translation.decode mvs true threshold)
      = Ok out
    /\ ((threshold < 1)%Q -> teq out t)
    /\ ((1 <= threshold)%Q -> teq out (scale (/ threshold)%Q t)).
Proof.
  intros Hd Hs Hw. rewrite (translation_encode_eq t lead Hs). cbn [bind].
  rewrite (translation_decode_divided (encoded_translation t lead) lead
             threshold eq_refl).
  eexists. split; [reflexivity|].
  assert (Hent : forall p, p < numel lead * 3 ->
            item (encoded_translation t lead) (p / 3 * 16 + 0) = 1%Q
            /\ item (encoded_translation t lead) (p / 3 * 16 + (5 + p mod 3))
               = (- (1 # 2) * item t p)%Q).
  { intros p Hp. destruct (row_col (numel lead) 3 p Hp) as (Ep & Hr & Hc).
    split; [now apply encoded_translation_scalar|].
    rewrite encoded_translation_bivector by assumption.
    rewrite Hd, convert_floating. now rewrite <- Ep. }
  split; intros Ht.
  - apply teq_pointwise; [apply wf_tabulate | exact Hw | now rewrite Hs |].
    cbn [shape tabulate]. intros p Hp. rewrite item_tabulate by exact Hp.
    rewrite numel_snoc in Hp. destruct (Hent p Hp) as [E0 E5].
    cbv zeta. rewrite E0, E5.
    rewrite abs_gt_true by (change (Qabs 1) with 1%Q; exact Ht).
    field.
  - assert (Hpos : ~ (threshold == 0)%Q).
    { intros E. rewrite E in Ht. apply (Qle_not_lt _ _ Ht). reflexivity. }
    apply teq_pointwise;
      [apply wf_tabulate | apply wf_tabulate
      | cbn [shape scale tabulate]; now rewrite Hs |].
    cbn [shape tabulate]. intros p Hp. rewrite item_tabulate by exact Hp.
    unfold scale. rewrite Hs. rewrite item_tabulate by exact Hp.
    rewrite numel_snoc in Hp. destruct (Hent p Hp) as [E0 E5].
    cbv zeta. rewrite E0, E5.
    rewrite abs_gt_false by (change (Qabs 1) with 1%Q; exact Ht).
    field. exact Hpos.
Qed.

Lemma translation_roundtrip_threshold_witness :
  exists out,
    (mvs <- Translation.encode sample_delta ;;
     Translation.decode mvs true (1 # 2)%Q) = Ok out
    /\ teq out sample_delta.
Proof.
  destruct (translation_roundtrip_threshold sample_delta [2] (1 # 2)%Q
              eq_refl eq_refl eq_refl) as (out & Ho & Hlt & _).
  exists out. split; [exact Ho | apply Hlt; reflexivity].
Defined.

Section ClampFacts.

Lemma abs_gt_inv (threshold v : Q) :
  abs_gt threshold v = true -> (threshold < Qabs v)%Q.
Proof.
  unfold abs_gt. intros H. apply negb_true_iff in H.
  apply Qnot_le_lt. intros L. apply Qle_bool_iff in L. congruence.
Qed.

(** Dividing by something at least as large as a positive threshold. *)
Lemma clamped_quotient (x d threshold : Q) :
  (0 < threshold)%Q -> (threshold <= Qabs d)%Q ->
  (Qabs (x / d) * threshold <= Qabs x)%Q.
Proof.
  intros Hp Hd.
  assert (HD : (0 < Qabs d)%Q) by (eapply Qlt_le_trans; eassumption).
  assert (Hne : ~ (Qabs d == 0)%Q) by (intros E; rewrite E in HD; discriminate).
  unfold Qdiv. rewrite Qabs_Qmult, Qabs_Qinv.
  apply Qle_trans with (Qabs x * / Qabs d * Qabs d)%Q.
  - rewrite !(Qmult_comm (Qabs x * / Qabs d)).
    apply Qmult_le_compat_r; [exact Hd|].
    apply Qmult_le_0_compat; [apply Qabs_nonneg|].
    apply Qinv_le_0_compat. apply Qabs_nonneg.
  - apply Qle_lteq. right. field. exact Hne.
Qed.

End ClampFacts.

(** X12. With a positive threshold the clamp does what it is there for:
    no denominator is smaller in absolute value than the threshold, so
    every entry [Translation.decode] returns with the division is bounded
    by twice the absolute value of the component it comes from, divided by
    the threshold. *)
Theorem translation_decode_bounded (mvs : tensor) (lead : list nat)
    (threshold : Q) :
  shape mvs = lead ++ [16] -> (0 < threshold)%Q ->
  exists out,
    Translation.decode mvs true threshold = Ok out
    /\ forall r j, r < numel lead -> j < 3 ->
         (Qabs (item out (r * 3 + j)) * threshold
          <= (2 # 1) * Qabs (item mvs (r * 16 + (5 + j))))%Q.
Proof.
  intros Hs Hp. rewrite (translation_decode_divided mvs lead threshold Hs).
  eexists. split; [reflexivity|].
  intros r j Hr Hj. entry. cbv zeta.
  set (e := item mvs (r * 16 + 0)).
  set (m := item mvs (r * 16 + (5 + j))).
  assert (Hd : (threshold <= Qabs (if abs_gt threshold e then e else threshold))%Q).
  { destruct (abs_gt threshold e) eqn:G.
    - apply Qlt_le_weak. now apply abs_gt_inv.
    - rewrite Qabs_pos by (now apply Qlt_le_weak). apply Qle_refl. }
  eapply Qle_trans; [apply (clamped_quotient _ _ _ Hp Hd)|].
  rewrite Qabs_Qmult. apply Qle_refl.
Qed.

Lemma translation_decode_bounded_witness :
  exists out,
    Translation.decode sample_mvs true Translation.default_threshold = Ok out
    /\ forall r j, r < numel [1] -> j < 3 ->
         (Qabs (item out (r * 3 + j)) * Translation.default_threshold
          <= (2 # 1) * Qabs (item sample_mvs (r * 16 + (5 + j))))%Q.
Proof.
  apply (translation_decode_bounded sample_mvs [1]
           Translation.default_threshold); reflexivity.
Defined.

(** X13. [Translation.decode] reads the components 5, 6, 7 and, with the
    division, component 0, and nothing else: two multivector tensors that
    agree there decode to the same tensor. *)
Theorem translation_decode_reads (a b : tensor) (lead : list nat)
    (divide : bool) (threshold : Q) :
  shape a = lead ++ [16] -> shape b = lead ++ [16] ->
  (forall r j, r < numel lead -> 5 <= j < 8 ->
     item a (r * 16 + j) = item b (r * 16 + j)) ->
  (divide = true ->
   forall r, r < numel lead -> item a (r * 16 + 0) = item b (r * 16 + 0)) ->
  Translation.decode a divide threshold = Translation.decode b divide threshold.
Proof.
  intros Ha Hb H57 H0. destruct divide.
  - rewrite (translation_decode_divided a lead threshold Ha),
      (translation_decode_divided b lead threshold Hb).
    f_equal. apply tabulate_ext. intros p Hp. rewrite numel_snoc in Hp.
    destruct (row_col (numel lead) 3 p Hp) as (_ & Hr & Hc).
    cbv zeta. rewrite (H0 eq_refl (p / 3) Hr).
    rewrite (H57 (p / 3) (5 + p mod 3) Hr) by lia. reflexivity.
  - rewrite (translation_decode_plain a lead threshold Ha),
      (translation_decode_plain b lead threshold Hb).
    f_equal. apply tabulate_ext. intros p Hp. rewrite numel_snoc in Hp.
    destruct (row_col (numel lead) 3 p Hp) as (_ & Hr & Hc).
    rewrite (H57 (p / 3) (5 + p mod 3) Hr) by lia. reflexivity.
Qed.

Lemma translation_decode_reads_witness :
  Translation.decode sample_mvs true Translation.default_threshold =
    Translation.decode sample_mvs_other true Translation.default_threshold.
Proof.
  apply (translation_decode_reads sample_mvs sample_mvs_other [1] true
           Translation.default_threshold); try reflexivity.
  - intros r j Hr [H5 H8]. assert (r = 0) by (simpl in Hr; lia). subst r.
    assert (Hj : j = 5 \/ j = 6 \/ j = 7) by lia.
    destruct Hj as [-> | [-> | ->]]; reflexivity.
  - intros _ r Hr. assert (r = 0) by (simpl in Hr; lia). subst r.
    reflexivity.
Defined.

Section EncodedTranslationFacts.

Lemma encoded_translation_other (delta : tensor) (lead : list nat) (r j : nat) :
  r < numel lead -> j < 16 -> j <> 0 -> j < 5 \/ 8 <= j ->
  item (encoded_translation delta lead) (r * 16 + j) = 0%Q.
Proof.
  intros Hr Hj H0 Hout. unfold encoded_translation. entry.
  replace ((5 <=? j) && (j <? 8)) with false.
  - entry. replace (j =? 0) with false by (symmetry; now apply Nat.eqb_neq).
    unfold zeros. entry. reflexivity.
  - symmetry. apply andb_false_iff. destruct Hout.
    + left. apply Nat.leb_gt. lia.
    + right. apply Nat.ltb_ge. lia.
Qed.

End EncodedTranslationFacts.

(** X14. Encoding what [Translation.decode] returns (without the division)
    keeps the components 5, 6, 7 of the multivector, sets component 0 to 1
    and clears every other component. *)
Theorem translation_encode_decode (mvs : tensor) (lead : list nat)
    (threshold : Q) :
  shape mvs = lead ++ [16] ->
  exists out,
    (d <- Translation.decode mvs false threshold ;; Translation.encode d)
      = Ok out
    /\ shape out = lead ++ [16]
    /\ forall r j, r < numel lead -> j < 16 ->
         (item out (r * 16 + j) ==
            if j =? 0 then 1
            else if (5 <=? j) && (j <? 8) then item mvs (r * 16 + j)
            else 0)%Q.
Proof.
  intros Hs. rewrite (translation_decode_plain mvs lead threshold Hs).
  cbn [bind]. rewrite translation_encode_eq with (lead := lead) by reflexivity.
  eexists. split; [reflexivity|]. split; [reflexivity|].
  intros r j Hr Hj.
  destruct (Nat.eq_dec j 0) as [->|N0].
  { rewrite encoded_translation_scalar by exact Hr. reflexivity. }
  replace (j =? 0) with false by (symmetry; now apply Nat.eqb_neq).
  destruct ((5 <=? j) && (j <? 8)) eqn:B.
  - apply andb_prop in B as [B1 B2].
    apply Nat.leb_le in B1. apply Nat.ltb_lt in B2.
    replace j with (5 + (j - 5)) by lia.
    rewrite encoded_translation_bivector by (reflexivity || lia).
    entry. ring.
  - rewrite encoded_translation_other; [reflexivity | assumption..|].
    apply andb_false_iff in B as [B|B];
      [left; apply Nat.leb_gt in B | right; apply Nat.ltb_ge in B]; lia.
Qed.

Lemma translation_encode_decode_witness :
  exists out,
    (d <- Translation.decode sample_mvs false Translation.default_threshold ;;
     Translation.encode d) = Ok out
    /\ shape out = [1] ++ [16].
Proof.
  destruct (translation_encode_decode sample_mvs [1]
              Translation.default_threshold eq_refl) as (out & Ho & Hs & _).
  exists out. split; assumption.
Defined.

(** X15. An encoded translation has scalar part one and no pseudoscalar
    part: [Scalar.decode] of it is all ones, [Pseudoscalar.decode] of it
    all zeros. *)
Theorem translation_scalar_parts (t : tensor) (lead : list nat) :
  shape t = lead ++ [3] ->
  (mvs <- Translation.encode t ;; Scalar.decode mvs)
    = Ok (tabulate (dtype t) (lead ++ [1]) (fun _ => 1%Q))
  /\ (mvs <- Translation.encode t ;; Pseudoscalar.decode mvs)
       = Ok (zeros (dtype t) (lead ++ [1])).
Proof.
  intros Hs. rewrite (translation_encode_eq t lead Hs). cbn [bind].
  unfold Scalar.decode, Pseudoscalar.decode.
  rewrite !index_last_snoc with (lead := lead) (n := 16)
    by (reflexivity || lia).
  split; f_equal; apply tabulate_ext; intros r Hr; rewrite numel_snoc in Hr.
  - apply encoded_translation_scalar. lia.
  - apply encoded_translation_other; lia.
Qed.

Lemma translation_scalar_parts_witness :
  (mvs <- Translation.encode sample_delta ;; Scalar.decode mvs)
    = Ok (tabulate (dtype sample_delta) ([2] ++ [1]) (fun _ => 1%Q))
  /\ (mvs <- Translation.encode sample_delta ;; Pseudoscalar.decode mvs)
       = Ok (zeros (dtype sample_delta) ([2] ++ [1])).
Proof. apply (translation_scalar_parts sample_delta [2]). reflexivity. Defined.

(* ================================================================== *)
(** ** More on Plane.encode *)

Section PlaneFacts.

Variable gp : tensor -> tensor -> result tensor.

(** The plane through the origin that [Plane.encode] starts from, and
    the assignment of a 1-dimensional second argument to component 1. *)
Lemma plane_encode_dim1 (normals distance : tensor) (lead : list nat) (m : nat) :
  shape normals = lead ++ [3] -> shape distance = [m] ->
  Plane.encode gp normals distance =
    (g <- copy_to (dtype normals) lead distance ;;
     Ok (tabulate (dtype normals) (lead ++ [16])
           (fun p =>
              if p mod 16 =? 1 then g (p / 16)
              else item
                     (tabulate (dtype normals) (lead ++ [16])
                        (fun q =>
                           if (2 <=? q mod 16) && (q mod 16 <? 5)
                           then convert (dtype normals) (dtype normals)
                                  (item normals
                                     ((q / 16) * (5 - 2) + (q mod 16 - 2)))
                           else item (zeros (dtype normals) (lead ++ [16])) q))
                     p))).
Proof.
  intros Hn Hd. unfold Plane.encode. rewrite Hn, removelast_last.
  rewrite slice_all_snoc with (1 := Hn). cbn [bind].
  rewrite set_last_slice_same with (lead := lead) (n := 16)
    by (reflexivity || lia || exact Hn).
  cbn [bind]. unfold dim. rewrite Hd. cbn [List.length Nat.eqb].
  rewrite set_last_copy with (lead := lead) (n := 16) by (reflexivity || lia).
  cbn [dtype zeros tabulate].
  destruct (copy_to (dtype normals) lead distance); reflexivity.
Qed.

(** A single distance is copied to every plane. *)
Lemma copy_to_single (d : scalar_type) (v : tensor) (lead : list nat) :
  shape v = [1] ->
  exists g, copy_to d lead v = Ok g
            /\ forall r, r < numel lead ->
                 g r = convert (dtype v) d (item v 0).
Proof.
  intros Hv. unfold copy_to. rewrite Hv.
  destruct (shape_eqb lead [1]) eqn:E.
  - apply shape_eqb_true in E. subst lead.
    eexists. split; [reflexivity|]. intros r Hr. simpl in Hr.
    cbv beta. do 2 f_equal. lia.
  - cbn [strip1 rev]. replace (expandable (rev lead) []) with true
      by (now destruct (rev lead)).
    eexists. split; [reflexivity|]. intros r Hr.
    now destruct (rev lead).
Qed.

End PlaneFacts.

(** X16. [Plane.encode] with a distance given as a 1-dimensional tensor
    holding a single entry puts that distance, converted to the dtype of
    the normals, at component 1 of every plane of the batch, whatever the
    leading axes of the normals, the normals at components 2, 3, 4 and
    zero elsewhere; the geometric product is not called. *)
Theorem plane_encode_single_distance_all
    (gp : tensor -> tensor -> result tensor) (normals distance : tensor)
    (lead : list nat) :
  shape normals = lead ++ [3] -> shape distance = [1] ->
  exists mvs,
    Plane.encode gp normals distance = Ok mvs
    /\ shape mvs = lead ++ [16]
    /\ forall r j, r < numel lead -> j < 16 ->
         item mvs (r * 16 + j) =
           if j =? 1
           then convert (dtype distance) (dtype normals) (item distance 0)
           else if (2 <=? j) && (j <? 5) then item normals (r * 3 + (j - 2))
           else 0%Q.
Proof.
  intros Hn Hd. rewrite (plane_encode_dim1 gp normals distance lead 1 Hn Hd).
  destruct (copy_to_single (dtype normals) distance lead Hd) as (g & Hg & Hgv).
  rewrite Hg. cbn [bind].
  eexists. split; [reflexivity|]. split; [reflexivity|].
  intros r j Hr Hj. entry.
  destruct (j =? 1); [now apply Hgv|].
  entry. change (5 - 2) with 3.
  destruct ((2 <=? j) && (j <? 5)); [reflexivity|].
  unfold zeros. entry. reflexivity.
Qed.

Lemma plane_encode_single_distance_all_witness :
  exists mvs,
    Plane.encode (fun a _ => Ok a) sample_delta (Tensor Floating [1] [5]%Q)
      = Ok mvs
    /\ shape mvs = [2] ++ [16].
Proof.
  destruct (plane_encode_single_distance_all (fun a _ => Ok a) sample_delta
              (Tensor Floating [1] [5]%Q) [2] eq_refl eq_refl)
    as (mvs & He & Hs & _).
  exists mvs. split; assumption.
Defined.

(** X17. For one normal (shape [(3,)]) every 1-dimensional second argument
    with more or fewer than one entry raises a runtime error.  That
    includes a position of shape [(3,)]: having one axis, it is taken for
    a distance and never translated. *)
Theorem plane_encode_unbatched_position
    (gp : tensor -> tensor -> result tensor) (normals distance : tensor)
    (m : nat) :
  shape normals = [3] -> shape distance = [m] -> m <> 1 ->
  Plane.encode gp normals distance = Raise RuntimeError.
Proof.
  intros Hn Hd Hm.
  rewrite (plane_encode_dim1 gp normals distance [] m Hn Hd).
  unfold copy_to. rewrite Hd.
  rewrite shape_eqb_false by discriminate.
  destruct m as [|[|m]]; [reflexivity | contradiction | reflexivity].
Qed.

Lemma plane_encode_unbatched_position_witness :
  Plane.encode (fun a _ => Ok a) (Tensor Floating [3] [0; 0; 1]%Q)
    (Tensor Floating [3] [1; 2; 3]%Q) = Raise RuntimeError.
Proof.
  apply (plane_encode_unbatched_position (fun a _ => Ok a)
           (Tensor Floating [3] [0; 0; 1]%Q) (Tensor Floating [3] [1; 2; 3]%Q) 3);
    [reflexivity | reflexivity | discriminate].
Defined.

Section PlaneBatchFacts.

(** A 1-dimensional value of [k] entries assigned to a destination whose
    last axis has size [k] is repeated along the other axes. *)
Lemma copy_to_row (d : scalar_type) (v : tensor) (pre : list nat) (k : nat) :
  shape v = [k] ->
  exists g, copy_to d (pre ++ [k]) v = Ok g
            /\ forall r, r < numel (pre ++ [k]) ->
                 g r = convert (dtype v) d (item v (r mod k)).
Proof.
  intros Hv. unfold copy_to. rewrite Hv.
  destruct (shape_eqb (pre ++ [k]) [k]) eqn:E.
  - apply shape_eqb_true in E. change [k] with ([] ++ [k]) in E at 2.
    apply app_inj_tail in E as [-> _].
    eexists. split; [reflexivity|]. intros r Hr. simpl in Hr.
    cbv beta. do 2 f_equal. symmetry. apply Nat.mod_small. lia.
  - rewrite rev_app_distr. cbn [rev app].
    destruct (Nat.eq_dec k 1) as [->|N1].
    + cbn [strip1 rev expandable]. eexists. split; [reflexivity|].
      intros r Hr. cbn [src_pos]. do 2 f_equal; symmetry; apply Nat.mod_1_r.
    + replace (strip1 [k]) with [k] by (now destruct k as [|[|k]]).
      cbn [rev app expandable]. rewrite Nat.eqb_refl.
      replace (expandable (rev pre) []) with true by (now destruct (rev pre)).
      cbn [orb andb]. eexists. split; [reflexivity|].
      intros r Hr. cbn [src_pos].
      replace (k =? 1) with false by (symmetry; now apply Nat.eqb_neq).
      replace (src_pos (rev pre) [] (r / k)) with 0 by (now destruct (rev pre)).
      do 2 f_equal. lia.
Qed.

End PlaneBatchFacts.

(** X18. [Plane.encode] with a 1-dimensional tensor of [k] distances and
    normals whose last batch axis has size [k]: plane number [r] of the
    flattened batch gets distance number [r mod k], converted to the dtype
    of the normals, at component 1 (with one batch axis, plane [r] gets
    distance [r]), its normal at components 2, 3, 4 and zero elsewhere. *)
Theorem plane_encode_distances
    (gp : tensor -> tensor -> result tensor) (normals distance : tensor)
    (pre : list nat) (k : nat) :
  shape normals = (pre ++ [k]) ++ [3] -> shape distance = [k] ->
  exists mvs,
    Plane.encode gp normals distance = Ok mvs
    /\ shape mvs = (pre ++ [k]) ++ [16]
    /\ forall r j, r < numel (pre ++ [k]) -> j < 16 ->
         item mvs (r * 16 + j) =
           if j =? 1
           then convert (dtype distance) (dtype normals)
                  (item distance (r mod k))
           else if (2 <=? j) && (j <? 5) then item normals (r * 3 + (j - 2))
           else 0%Q.
Proof.
  intros Hn Hd.
  rewrite (plane_encode_dim1 gp normals distance (pre ++ [k]) k Hn Hd).
  destruct (copy_to_row (dtype normals) distance pre k Hd) as (g & Hg & Hgv).
  rewrite Hg. cbn [bind]. clear Hg Hn.
  remember (pre ++ [k]) as L eqn:EL. clear EL.
  eexists. split; [reflexivity|]. split; [reflexivity|].
  intros r j Hr Hj. entry.
  destruct (j =? 1); [now apply Hgv|].
  entry. change (5 - 2) with 3.
  destruct ((2 <=? j) && (j <? 5)); [reflexivity|].
  unfold zeros. entry. reflexivity.
Qed.

Lemma plane_encode_distances_witness :
  exists mvs,
    Plane.encode (fun a _ => Ok a) sample_delta (Tensor Floating [2] [5; 6]%Q)
      = Ok mvs
    /\ shape mvs = ([] ++ [2]) ++ [16].
Proof.
  destruct (plane_encode_distances (fun a _ => Ok a) sample_delta
              (Tensor Floating [2] [5; 6]%Q) [] 2 eq_refl eq_refl)
    as (mvs & He & Hs & _).
  exists mvs. split; assumption.
Defined.

(* ================================================================== *)
(** ** More on the blocks *)

Section BlockFacts.

Context {E : Collaborators}.

(** X19. The construction check lets a [size_channels_intermediate] of
    zero or less through when it is even, but a [Bilinear] built that way
    is of no use: [forward] raises on every input, at the latest when the
    split does not give four parts. *)
Theorem bilinear_nonpositive_fails (config : ModelConfig) (self : Bilinear.t)
    (x : tensor) (reference : option tensor) :
  Bilinear.__init__ config = Ok self ->
  (size_channels_intermediate config <= 0)%Z ->
  fails_explicitly (Bilinear.forward self x reference).
Proof.
  intros Hinit Hle.
  destruct (bilinear_init_inv config self Hinit) as (He & Hc & _ & _).
  unfold fails_explicitly, Bilinear.forward. rewrite Hc.
  destruct (EquiLinear_call (Bilinear.proj_bil self) x) as [y|e];
    cbn [bind]; [|now exists e].
  unfold split2.
  destruct (channel_axes (shape y)) as [[[lead c] n]|];
    cbn [bind]; [|now exists IndexError].
  destruct (size_channels_intermediate config / 2 <? 0)%Z eqn:Hneg;
    cbn [bind]; [now exists RuntimeError|].
  apply Z.ltb_ge in Hneg.
  assert (Hz : (size_channels_intermediate config / 2 = 0)%Z).
  { pose proof (Z.div_mod (size_channels_intermediate config) 2 ltac:(lia)).
    lia. }
  rewrite Hz. cbn [Z.to_nat Nat.eqb andb].
  destruct (c =? 0); cbn [negb bind]; [|now exists RuntimeError].
  cbn [seq map unpack4 bind]. eexists. reflexivity.
Qed.

(** X20. [MLP] builds its normalization layer first and its [Bilinear]
    second: once the normalization layer is built, an odd
    [size_channels_intermediate] makes the construction of [MLP] raise the
    configuration error of [Bilinear]. *)
Theorem mlp_init_odd (config : ModelConfig) (n : EquiRMSNorm) :
  EquiRMSNorm_init (size_channels_hidden config) (norm_eps config)
    (norm_channelwise_rescale config) = Ok n ->
  (size_channels_intermediate config mod 2 <> 0)%Z ->
  MLP.__init__ config =
    Raise (ValueError "Number of hidden channels must be even.").
Proof.
  intros Hn Hodd. unfold MLP.__init__. rewrite Hn. cbn [bind].
  rewrite (bilinear_init_odd config Hodd). reflexivity.
Qed.

(** X22. [Attention.forward] adds its input to itself: the result is twice
    the input, not the input. *)
Theorem attention_forward_doubles (self : Attention.t) (x : tensor) :
  wf x ->
  exists out,
    Attention.forward self x = Ok out /\ teq out (scale (2 # 1)%Q x).
Proof.
  intros Hw. unfold Attention.forward.
  destruct (add_same_shape x x eq_refl) as (out & Ho & Hs & Hwo & Hit).
  exists out. split; [exact Ho|].
  apply teq_pointwise; [exact Hwo | apply wf_tabulate | exact Hs |].
  rewrite Hs. intros p Hp. rewrite (Hit p Hp).
  unfold scale. rewrite item_tabulate by exact Hp. ring.
Qed.

End BlockFacts.

Lemma bilinear_nonpositive_fails_witness :
  fails_explicitly (Bilinear.forward sample_bilinear_zero sample_hidden None).
Proof.
  apply (bilinear_nonpositive_fails zero_config sample_bilinear_zero
           sample_hidden None); [reflexivity | discriminate].
Defined.

Lemma mlp_init_odd_witness :
  @MLP.__init__ StandIn.collaborators odd_config =
    Raise (ValueError "Number of hidden channels must be even.").
Proof.
  apply (@mlp_init_odd StandIn.collaborators odd_config tt);
    [reflexivity | discriminate].
Defined.

Lemma attention_forward_doubles_witness :
  exists out,
    Attention.forward {| Attention.config := default_config |} sample_delta
      = Ok out
    /\ teq out (scale (2 # 1)%Q sample_delta).
Proof.
  apply (attention_forward_doubles {| Attention.config := default_config |}
           sample_delta).
  reflexivity.
Defined.

Section BlockShapes.

Context {E : Collaborators} (HC : Contracts E) (HB : BlockContracts E).

(** A constructed [Bilinear] returns on every input with
    [size_channels_hidden] channels, with the shape of the input. *)
Lemma bilinear_forward_ok (config : ModelConfig) (self : Bilinear.t)
    (x : tensor) (lead : list nat) :
  Bilinear.__init__ config = Ok self ->
  (0 < size_channels_intermediate config)%Z ->
  shape x = lead ++ [Z.to_nat (size_channels_hidden config); 16] ->
  exists y,
    Bilinear.forward self x None = Ok y
    /\ shape y = lead ++ [Z.to_nat (size_channels_hidden config); 16].
Proof.
  intros Hinit Hi Hx.
  destruct (bilinear_forward_split HC config self x lead None Hinit Hi Hx)
    as (y & _ & Hsy & Hf & Hcat).
  set (k := Z.to_nat (size_channels_intermediate config / 2)) in *.
  destruct (product_ok (narrow2 y lead (4 * k) 16 (0 * k) k)
              (narrow2 y lead (4 * k) 16 (1 * k) k) lead k eq_refl eq_refl)
    as (g & Hg & Hsg).
  destruct (join_ok (narrow2 y lead (4 * k) 16 (2 * k) k)
              (narrow2 y lead (4 * k) 16 (3 * k) k) lead k eq_refl eq_refl)
    as (j & Hj & Hsj).
  destruct (Hcat g j Hsg Hsj) as (c & out & Hc & _ & Hout & Hso).
  exists out. rewrite Hf, Hg. cbn [bind]. rewrite Hj. cbn [bind].
  rewrite Hc. cbn [bind]. split; assumption.
Qed.

(** X21. With an even, positive [size_channels_intermediate] and a
    positive [size_channels_hidden] the construction of [MLP] succeeds, and
    [forward] returns on every input with [size_channels_hidden] channels a
    tensor of the shape of the input. *)
Theorem mlp_forward_shape (config : ModelConfig) :
  (size_channels_intermediate config mod 2 = 0)%Z ->
  (0 < size_channels_intermediate config)%Z ->
  (0 < size_channels_hidden config)%Z ->
  exists self,
    MLP.__init__ config = Ok self
    /\ forall x lead,
         shape x = lead ++ [Z.to_nat (size_channels_hidden config); 16] ->
         exists y, MLP.forward self x None = Ok y /\ shape y = shape x.
Proof.
  intros He Hi Hh.
  destruct (norm_init_ok (size_channels_hidden config) (norm_eps config)
              (norm_channelwise_rescale config) Hh) as (ln & Hln).
  destruct (linear_init_ok (size_channels_hidden config)
              (size_channels_intermediate config * 2)) as (pb & Hpb); try lia.
  destruct (linear_init_ok (size_channels_intermediate config)
              (size_channels_hidden config)) as (po & Hpo); try lia.
  destruct (linear_init_ok (size_channels_hidden config)
              (size_channels_hidden config)) as (pf & Hpf); try lia.
  assert (Hbil : Bilinear.__init__ config =
                   Ok {| Bilinear.config := config;
                         Bilinear.proj_bil := pb;
                         Bilinear.proj_out := po |}).
  { rewrite (bilinear_init_even config He), Hpb, Hpo. reflexivity. }
  eexists. split.
  { unfold MLP.__init__. rewrite Hln. cbn [bind]. rewrite Hbil. cbn [bind].
    rewrite Hpf. reflexivity. }
  intros x lead Hx. unfold MLP.forward.
  cbn [MLP.layer_norm MLP.equi_bil MLP.proj_out].
  destruct (norm_call_ok ln x) as (n & Hn & Hsn). rewrite Hn. cbn [bind].
  rewrite Hx in Hsn.
  destruct (bilinear_forward_ok config _ n lead Hbil Hi Hsn) as (b & Hb & Hsb).
  rewrite Hb. cbn [bind].
  destruct (gelu_ok b) as (a & Ha & Hsa). rewrite Ha. cbn [bind].
  rewrite Hsb in Hsa.
  destruct (linear_call_ok _ _ _ a lead Hpf Hsa) as (o & Ho & Hso).
  rewrite Ho. cbn [bind]. rewrite <- Hx in Hso.
  destruct (add_same_shape o x Hso) as (out & Hadd & Hs & _).
  exists out. split; assumption.
Qed.

(** X23. [Embedding] is one equivariant linear map from
    [size_channels_in] to [size_channels_hidden] channels: for positive
    channel counts it is constructed whatever the other fields of the
    configuration, and [forward] turns an input with [size_channels_in]
    channels into a tensor with [size_channels_hidden] channels and the
    same other axes. *)
Theorem embedding_forward_channels (config : ModelConfig) :
  (0 < size_channels_in config)%Z ->
  (0 < size_channels_hidden config)%Z ->
  exists self,
    Embedding.__init__ config = Ok self
    /\ forall x lead,
         shape x = lead ++ [Z.to_nat (size_channels_in config); 16] ->
         exists y,
           Embedding.forward self x = Ok y
           /\ shape y = lead ++ [Z.to_nat (size_channels_hidden config); 16].
Proof.
  intros Hi Hh.
  destruct (linear_init_ok (size_channels_in config)
              (size_channels_hidden config) Hi Hh) as (l & Hl).
  eexists. split.
  { unfold Embedding.__init__. rewrite Hl. reflexivity. }
  intros x lead Hx. unfold Embedding.forward. cbn [Embedding.embedding].
  exact (linear_call_ok _ _ _ x lead Hl Hx).
Qed.

End BlockShapes.

Lemma standin_block_contracts : BlockContracts StandIn.collaborators.
Proof.
  constructor; cbn.
  - intros c eps rescale _. now exists tt.
  - intros n x. now exists x.
  - intros x. now exists x.
Qed.

Lemma mlp_forward_shape_witness :
  exists self,
    @MLP.__init__ StandIn.collaborators default_config = Ok self
    /\ forall x lead,
         shape x = lead ++ [32; 16] ->
         exists y, MLP.forward self x None = Ok y /\ shape y = shape x.
Proof.
  apply (mlp_forward_shape standin_contracts standin_block_contracts
           default_config); reflexivity.
Defined.

Lemma embedding_forward_channels_witness :
  exists self,
    @Embedding.__init__ StandIn.collaborators odd_config = Ok self
    /\ forall x lead,
         shape x = lead ++ [1; 16] ->
         exists y,
           Embedding.forward self x = Ok y /\ shape y = lead ++ [32; 16].
Proof.
  apply (embedding_forward_channels standin_contracts odd_config);
    reflexivity.
Defined.

(* ================================================================== *)
(** ** Plane.encode with positions *)

(** X24. [Plane.encode] with a batch of positions (a second argument with
    more than one axis, three components each, one per normal) returns the
    sandwich [T * P * T'] of geometric products, where [P] is the plane
    through the origin with the given normals, [T] the encoded translation
    by the positions and [T'] the encoded translation by their negation:
    [T'] has the scalar part 1 of [T] and the opposite components
    5, 6, 7. *)
Theorem plane_encode_positions
    (gp : tensor -> tensor -> result tensor) (normals positions : tensor)
    (lead : list nat) :
  shape normals = lead ++ [3] -> shape positions = lead ++ [3] ->
  lead <> [] ->
  let T := encoded_translation positions lead in
  let T' := encoded_translation (neg positions) lead in
  Plane.encode gp normals positions =
    (m <- gp T (origin_plane normals lead) ;; gp m T')
  /\ Translation.encode positions = Ok T
  /\ Translation.encode (neg positions) = Ok T'
  /\ forall r j, r < numel lead -> j < 3 ->
       (item T' (r * 16 + (5 + j)) == - item T (r * 16 + (5 + j)))%Q
       /\ item T' (r * 16 + 0) = item T (r * 16 + 0).
Proof.
  intros Hn Hp Hlead T T'.
  assert (Hneg : shape (neg positions) = lead ++ [3]) by exact Hp.
  assert (HT : Translation.encode positions = Ok T)
    by exact (translation_encode_eq positions lead Hp).
  assert (HT' : Translation.encode (neg positions) = Ok T')
    by exact (translation_encode_eq (neg positions) lead Hneg).
  split; [|split; [exact HT | split; [exact HT'|]]].
  - unfold Plane.encode. rewrite Hn, removelast_last.
    rewrite slice_all_snoc with (1 := Hn). cbn [bind].
    rewrite set_last_slice_same with (lead := lead) (n := 16)
      by (reflexivity || lia || exact Hn).
    cbn [bind]. unfold dim. rewrite Hp, length_app. cbn [List.length].
    replace (List.length lead + 1 =? 1) with false.
    + rewrite HT, HT'. reflexivity.
    + symmetry. apply Nat.eqb_neq. destruct lead; [contradiction | simpl; lia].
  - intros r j Hr Hj. subst T T'. split.
    + rewrite !encoded_translation_bivector by assumption.
      unfold neg. rewrite Hp.
      rewrite item_tabulate by (rewrite numel_snoc; lia).
      cbn [dtype tabulate].
      rewrite <- convert_opp. apply convert_comp. ring.
    + now rewrite !encoded_translation_scalar.
Qed.

Lemma plane_encode_positions_witness :
  Plane.encode (fun a _ => Ok a) sample_delta sample_positions =
    (m <- (fun a _ => Ok a) (encoded_translation sample_positions [2])
            (origin_plane sample_delta [2]) ;;
     (fun a _ => Ok a) m (encoded_translation (neg sample_positions) [2])).
Proof.
  apply (plane_encode_positions (fun a _ => Ok a) sample_delta
           sample_positions [2]); [reflexivity | reflexivity | discriminate].
Defined.

(* ================================================================== *)
(** ** Points next to the other codecs *)

Section PointFacts.

(** The entries of an encoded batch of points. *)
Lemma point_encode_entries (points : tensor) (lead : list nat) :
  shape points = lead ++ [3] ->
  exists mvs,
    Point.encode points = Ok mvs
    /\ dtype mvs = dtype points
    /\ shape mvs = lead ++ [16]
    /\ forall r j, r < numel lead -> j < 16 -> j < 11 \/ j = 15 ->
         item mvs (r * 16 + j) = 0%Q.
Proof.
  intros Hs. unfold Point.encode. rewrite Hs, removelast_last.
  rewrite set_last_scalar_snoc with (lead := lead) (n := 16)
    by (reflexivity || lia).
  cbn [bind].
  rewrite !select_last_snoc with (lead := lead) (n := 3) by (exact Hs || lia).
  cbn [bind].
  do 3 (rewrite set_last_same with (lead := lead) (n := 16)
          by (reflexivity || lia); cbn [bind]).
  eexists. split; [reflexivity|]. split; [reflexivity|].
  split; [reflexivity|].
  intros r j Hr Hj Hout. unfold zeros.
  entry. replace (j =? 11) with false by (symmetry; apply Nat.eqb_neq; lia).
  entry. replace (j =? 12) with false by (symmetry; apply Nat.eqb_neq; lia).
  entry. replace (j =? 13) with false by (symmetry; apply Nat.eqb_neq; lia).
  entry. replace (j =? 14) with false by (symmetry; apply Nat.eqb_neq; lia).
  entry. reflexivity.
Qed.

End PointFacts.

(** X25. An encoded point has no scalar, no translation and no
    pseudoscalar part: [Scalar.decode], [Translation.decode] (without the
    division) and [Pseudoscalar.decode] of it return zeros. *)
Theorem point_other_parts (points : tensor) (lead : list nat) (threshold : Q) :
  shape points = lead ++ [3] ->
  exists mvs,
    Point.encode points = Ok mvs
    /\ Scalar.decode mvs = Ok (zeros (dtype points) (lead ++ [1]))
    /\ Pseudoscalar.decode mvs = Ok (zeros (dtype points) (lead ++ [1]))
    /\ exists out,
         Translation.decode mvs false threshold = Ok out
         /\ shape out = lead ++ [3]
         /\ forall p, p < numel (lead ++ [3]) -> (item out p == 0)%Q.
Proof.
  intros Hs.
  destruct (point_encode_entries points lead Hs) as (mvs & He & Hd & Hm & Hz).
  exists mvs. split; [exact He|].
  unfold Scalar.decode, Pseudoscalar.decode.
  rewrite !index_last_snoc with (lead := lead) (n := 16) by (exact Hm || lia).
  rewrite Hd. split; [|split].
  - f_equal. apply tabulate_ext. intros r Hr. rewrite numel_snoc in Hr.
    apply Hz; lia.
  - f_equal. apply tabulate_ext. intros r Hr. rewrite numel_snoc in Hr.
    apply Hz; lia.
  - rewrite (translation_decode_plain mvs lead threshold Hm).
    eexists. split; [reflexivity|]. split; [reflexivity|].
    intros p Hp. rewrite item_tabulate by exact Hp.
    rewrite numel_snoc in Hp.
    destruct (row_col (numel lead) 3 p Hp) as (_ & Hr & Hc).
    rewrite Hz by lia. ring.
Qed.

Lemma point_other_parts_witness :
  exists mvs,
    Point.encode sample_delta = Ok mvs
    /\ Scalar.decode mvs = Ok (zeros (dtype sample_delta) ([2] ++ [1])).
Proof.
  destruct (point_other_parts sample_delta [2] Translation.default_threshold
              eq_refl) as (mvs & He & Hsc & _).
  exists mvs. split; assumption.
Defined.
